(** * validog: the matching and filtering engine of [index.js]

    A shallow embedding of the query functions of the package (name lookup,
    filters by one field, weight-range filter, fuzzy search, comparison,
    recommendation) and of the
    helpers they call ([lib/utils.js], [lib/validations.js], [lib/errors.js]),
    followed by the properties the specification states about them.

    Conventions of the embedding.
    - A JavaScript string is a [string]: a sequence of code units, here the
      code units below 256.  On that alphabet [trim] and [toLowerCase] are
      written out exactly.
    - A JavaScript number is a [JsNum]: a finite number is carried as a
      rational; [NaN] and the two infinities are kept because they pass the
      [typeof x === 'number'] validations.  Comparisons and
      [Math.min]/[Math.max] are exact on doubles.  Where the code computes a
      number ([parseInt] and [(a + b) / 2] in [parseLifespanAverage]) the
      exact result is rounded to the nearest double, a tie to the even one,
      and overflows to an infinity ([JsNumber.round]).
    - A function that can [throw] returns a [Result].
    - The catalog [dogBreeds] ([require('./dogs.json')]) is a parameter: a
      list of objects of the shape [DogBreedData] of [index.d.ts]. *)

From Stdlib Require Import Ascii String QArith Lqa.
From stdpp Require Import base option list strings gmap sorting.

Local Open Scope string_scope.
Local Open Scope nat_scope.

(* ================================================================== *)
(** ** Strings *)

Module JsString.

Definition code (c : ascii) : nat := nat_of_ascii c.

(** The characters [String.prototype.trim] strips: WhiteSpace and
    LineTerminator.  Below 256 these are TAB, LF, VT, FF, CR, SPACE and
    NO-BREAK SPACE. *)
Definition isWhiteSpace (c : ascii) : bool :=
  (Nat.leb 9 (code c) && Nat.leb (code c) 13)
  || Nat.eqb (code c) 32 || Nat.eqb (code c) 160.

Fixpoint trimStart (s : string) : string :=
  match s with
  | EmptyString => EmptyString
  | String c s' => if isWhiteSpace c then trimStart s' else s
  end.

Fixpoint trimEnd (s : string) : string :=
  match s with
  | EmptyString => EmptyString
  | String c s' =>
      match trimEnd s' with
      | EmptyString =>
          if isWhiteSpace c then EmptyString else String c EmptyString
      | t => String c t
      end
  end.

(** [s.trim()] *)
Definition trim (s : string) : string := trimEnd (trimStart s).

(** Lower-casing of one code unit: [A]-[Z], and the capital letters of the
    Latin-1 supplement (U+00C0 to U+00DE, the multiplication sign U+00D7
    apart), move up by 32.  Everything else below 256 is its own lower
    case. *)
Definition lowerChar (c : ascii) : ascii :=
  if (Nat.leb 65 (code c) && Nat.leb (code c) 90)
     || (Nat.leb 192 (code c) && Nat.leb (code c) 222
         && negb (Nat.eqb (code c) 215))
  then ascii_of_nat (code c + 32)
  else c.

(** [s.toLowerCase()] *)
Fixpoint toLowerCase (s : string) : string :=
  match s with
  | EmptyString => EmptyString
  | String c s' => String (lowerChar c) (toLowerCase s')
  end.

(** [s.includes(t)]: [t] occurs in [s] at some offset. *)
Fixpoint includes (s t : string) : bool :=
  String.prefix t s
  || match s with
     | EmptyString => false
     | String _ s' => includes s' t
     end.

(** [s.charAt(i)]: the code unit at [i], the empty string ([None]) out of
    range. *)
Definition charAt (s : string) (i : nat) : option ascii := String.get i s.

(** [s === t] on strings. *)
Definition strictEq (s t : string) : bool := bool_decide (s = t).

(** The double quote, for building messages. *)
Definition dquote : string := String (ascii_of_nat 34) EmptyString.

End JsString.
Export JsString.

(* ================================================================== *)
(** ** Numbers *)

Module JsNumber.

Inductive JsNum : Type :=
| NaN
| NegInf
| Fin (q : Q)
| PosInf.

Definition Qlt_bool (p q : Q) : bool := negb (Qle_bool q p).

(** [x < y] *)
Definition lt (x y : JsNum) : bool :=
  match x, y with
  | NaN, _ | _, NaN => false
  | _, NegInf => false
  | NegInf, _ => true
  | PosInf, _ => false
  | Fin _, PosInf => true
  | Fin p, Fin q => Qlt_bool p q
  end.

(** [x > y] *)
Definition gt (x y : JsNum) : bool := lt y x.

(** [x <= y] *)
Definition le (x y : JsNum) : bool :=
  match x, y with
  | NaN, _ | _, NaN => false
  | NegInf, _ => true
  | _, PosInf => true
  | _, NegInf => false
  | PosInf, _ => false
  | Fin p, Fin q => Qle_bool p q
  end.

(** [Math.min(x, y)]: [NaN] as soon as one argument is. *)
Definition min (x y : JsNum) : JsNum :=
  match x, y with
  | NaN, _ | _, NaN => NaN
  | _, _ => if lt y x then y else x
  end.

(** [Math.max(x, y)] *)
Definition max (x y : JsNum) : JsNum :=
  match x, y with
  | NaN, _ | _, NaN => NaN
  | _, _ => if lt x y then y else x
  end.

(** A non-negative integer as a number. *)
Definition of_nat (n : nat) : JsNum := Fin (inject_Z (Z.of_nat n)).

Definition zero : JsNum := of_nat 0.

(** [n / d] as an integer, to the nearest one, a tie to the even one;
    [0 <= n] and [0 < d]. *)
Definition nearest_even (n d : Z) : Z :=
  let q := (n / d)%Z in
  match (2 * (n mod d) ?= d)%Z with
  | Lt => q
  | Gt => (q + 1)%Z
  | Eq => if Z.even q then q else (q + 1)%Z
  end.

(** [(a / d) / 2 ^ e] as a fraction of two integers. *)
Definition scaled (e a d : Z) : Z * Z :=
  if (0 <=? e)%Z then (a, (d * 2 ^ e)%Z) else ((a * 2 ^ (- e))%Z, d).

(** The double a real number becomes (IEEE 754 binary64, round to nearest,
    ties to even): the number is written [m * 2 ^ e] with [m] an integer of
    53 bits ([e] not below -1074, where the subnormal numbers start), [m] is
    rounded, and what reaches [2 ^ 1024] is an infinity.  The sign of a zero
    is not kept: no comparison tells [-0] from [0]. *)
Definition round (x : Q) : JsNum :=
  let a := Z.abs (Qnum x) in
  let d := Z.pos (Qden x) in
  if (a =? 0)%Z then Fin 0 else
  let e0 := (Z.log2 a - Z.log2 d - 52)%Z in
  let e1 :=
    let '(n, d') := scaled e0 a d in
    if (n <? 2 ^ 52 * d')%Z then (e0 - 1)%Z else e0 in
  let e := Z.max e1 (-1074) in
  let '(n, d') := scaled e a d in
  let m := (Z.sgn (Qnum x) * nearest_even n d')%Z in
  if (0 <=? e)%Z
  then
    if (2 ^ 1024 <=? Z.abs m * 2 ^ e)%Z
    then (if (m <? 0)%Z then NegInf else PosInf)
    else Fin (inject_Z (m * 2 ^ e))
  else Fin (Qred (Qmake m (Z.to_pos (2 ^ (- e))))).

(** [x + y] *)
Definition add (x y : JsNum) : JsNum :=
  match x, y with
  | NaN, _ | _, NaN => NaN
  | PosInf, NegInf | NegInf, PosInf => NaN
  | PosInf, _ | _, PosInf => PosInf
  | NegInf, _ | _, NegInf => NegInf
  | Fin p, Fin q => round (p + q)
  end.

(** [x / 2] *)
Definition halve (x : JsNum) : JsNum :=
  match x with
  | Fin p => round (p / 2)
  | _ => x
  end.

End JsNumber.
Export JsNumber(JsNum, NaN, NegInf, Fin, PosInf).

(* ================================================================== *)
(** ** Errors and results *)

(** The three kinds of exception the package raises: [NonEmptyStringError]
    of [lib/errors.js] (it carries [fieldName]), the built-in [TypeError],
    and the plain [Error] that [compareBreeds] throws. *)
Inductive JsError : Type :=
| NonEmptyStringError (fieldName : string)
| TypeError (message : string)
| Error (message : string).

Inductive Result (A : Type) : Type :=
| Ok (a : A)
| Throw (e : JsError).
Arguments Ok {A} a.
Arguments Throw {A} e.

Definition bind {A B : Type} (r : Result A) (k : A -> Result B) : Result B :=
  match r with
  | Ok a => k a
  | Throw e => Throw e
  end.

Notation "x <- r ;; k" := (bind r (fun x => k))
  (at level 100, r at next level, right associativity, only parsing).
Notation "r ;;; k" := (bind r (fun _ => k))
  (at level 100, right associativity, only parsing).

(* ================================================================== *)
(** ** [lib/validations.js] *)

Module Validations.

(** [UNIT_ALIASES]: the two [Set]s of accepted spellings. *)
Definition UNIT_ALIASES_kgs : gset string :=
  list_to_set ["kg"; "kgs"; "kilogram"; "kilograms"; "kilo"; "kilos"].
Definition UNIT_ALIASES_lbs : gset string :=
  list_to_set ["lb"; "lbs"; "pound"; "pounds"].

(** [validateNonEmptyString(value, fieldName)].  The argument is a string
    here, so of [typeof value !== 'string' || value.trim() === ''] only the
    second test can fire. *)
Definition validateNonEmptyString (value fieldName : string) : Result unit :=
  if strictEq (trim value) "" then Throw (NonEmptyStringError fieldName)
  else Ok tt.

(** [validateNumber(value, fieldName)]: every [JsNum], [NaN] and the
    infinities included, has [typeof value === 'number']. *)
Definition validateNumber (value : JsNum) (fieldName : string) : Result unit :=
  Ok tt.

(** [validateNonNegativeNumber(value, fieldName)] *)
Definition validateNonNegativeNumber (value : JsNum) (fieldName : string)
  : Result unit :=
  validateNumber value fieldName ;;;
  if JsNumber.lt value JsNumber.zero
  then Throw (TypeError (fieldName ++ " must be a non-negative number"))
  else Ok tt.

(** [validateNumberRange(min, max)] *)
Definition validateNumberRange (min max : JsNum) : Result unit :=
  validateNumber min "Min weight" ;;;
  validateNumber max "Max weight".

Definition unit_message : string :=
  "Unit must be " ++ dquote ++ "lbs" ++ dquote ++ "/" ++ dquote ++ "lb"
  ++ dquote ++ "/" ++ dquote ++ "pounds" ++ dquote ++ "/" ++ dquote
  ++ "pound" ++ dquote ++ " or " ++ dquote ++ "kgs" ++ dquote ++ "/"
  ++ dquote ++ "kg" ++ dquote ++ "/" ++ dquote ++ "kilograms" ++ dquote
  ++ "/" ++ dquote ++ "kilos" ++ dquote.

(** [validateUnit(unit = 'lbs')]: [None] is the omitted argument. *)
Definition validateUnit (unit : option string) : Result string :=
  let unit := default "lbs" unit in
  let normalized := trim (toLowerCase unit) in
  if bool_decide (normalized ∈ UNIT_ALIASES_kgs) then Ok "kgs"
  else if bool_decide (normalized ∈ UNIT_ALIASES_lbs) then Ok "lbs"
  else Throw (TypeError unit_message).

(** [VALID_COMPATIBILITY_KEYS] *)
Definition VALID_COMPATIBILITY_KEYS : list string :=
  ["children"; "otherDogs"; "cats"].

(** [validateBoolean(value, fieldName)]: the argument is a boolean here. *)
Definition validateBoolean (value : bool) (fieldName : string) : Result unit :=
  Ok tt.

(** [validateCompatibilityKey(value)]; [keys.join(', ')] is
    [String.concat]. *)
Definition validateCompatibilityKey (value : string) : Result unit :=
  if bool_decide (value ∈ VALID_COMPATIBILITY_KEYS) then Ok tt
  else Throw (TypeError ("Compatibility key must be one of: "
                         ++ String.concat ", " VALID_COMPATIBILITY_KEYS)).

End Validations.
Export Validations.

(* ================================================================== *)
(** ** [lib/utils.js] *)

Module Utils.

(** *** [levenshteinDistance] *)

(** [matrix[i][j]]; every read of the two loops is inside the matrix. *)
Definition cell (matrix : list (list nat)) (i j : nat) : nat :=
  default 0 (matrix !! i ≫= (.!! j)).

(** [row[j] = v] on an array: an index inside the array overwrites, the
    index [row.length] makes the array one longer (the loops never write
    further out). *)
Definition array_set (row : list nat) (j v : nat) : list nat :=
  if decide (j < length row) then <[j:=v]> row else (row ++ [v])%list.

(** [matrix[i][j] = v] *)
Definition set_cell (matrix : list (list nat)) (i j v : nat)
  : list (list nat) :=
  alter (λ row, array_set row j v) i matrix.

(** [Math.min(x, y, z)] on non-negative integers. *)
Definition min3 (x y z : nat) : nat := Nat.min (Nat.min x y) z.

Definition levenshteinDistance (a b : string) : nat :=
  let alen := String.length a in
  let blen := String.length b in
  if Nat.eqb alen 0 then blen else
  if Nat.eqb blen 0 then alen else
  let matrix := (λ i, [i]) <$> seq 0 (blen + 1) in
  let matrix := foldl (λ m j, set_cell m 0 j j) matrix (seq 0 (alen + 1)) in
  let matrix :=
    foldl (λ m i,
      foldl (λ m j,
        let cost :=
          if decide (charAt b (i - 1) = charAt a (j - 1)) then 0 else 1 in
        set_cell m i j
          (min3 (cell m (i - 1) j + 1)
                (cell m i (j - 1) + 1)
                (cell m (i - 1) (j - 1) + cost)))
        m (seq 1 alen))
      matrix (seq 1 blen) in
  cell matrix blen alen.

(** *** [parseLifespanAverage] *)

Definition isDigit (c : ascii) : bool :=
  Nat.leb 48 (code c) && Nat.leb (code c) 57.

Definition hyphen : ascii := ascii_of_nat 45.

(** [s.replace(/[^0-9\-–—]/g, '')].  The class keeps the digits, the hyphen,
    the en dash (U+2013) and the em dash (U+2014).  A [string] has code
    units up to U+00FF only, so of the three dashes it can hold the hyphen
    alone. *)
Fixpoint keepDigitsAndDashes (s : string) : string :=
  match s with
  | EmptyString => EmptyString
  | String c s' =>
      if isDigit c || bool_decide (c = hyphen)
      then String c (keepDigitsAndDashes s')
      else keepDigitsAndDashes s'
  end.

(** [s.replace(/[–—]/g, '-')]: an en or em dash becomes a hyphen, so the
    code reads a range written with one of them as it reads the range
    written with a hyphen.  No [string] holds an en or em dash, and on a
    [string] the replacement changes nothing: a lifespan written with one of
    the two is outside this embedding. *)
Definition normalizeDashes (s : string) : string := s.

(** [s.split('-')] *)
Fixpoint split (sep : ascii) (s : string) : list string :=
  match s with
  | EmptyString => [EmptyString]
  | String c s' =>
      if decide (c = sep) then EmptyString :: split sep s'
      else match split sep s' with
           | part :: parts => String c part :: parts
           | [] => [String c EmptyString]
           end
  end.

(** The value of the longest prefix of decimal digits, [None] if there is
    no digit. *)
Fixpoint digitsValue (acc : option Z) (s : string) : option Z :=
  match s with
  | EmptyString => acc
  | String c s' =>
      if isDigit c
      then digitsValue
             (Some (10 * default 0%Z acc + Z.of_nat (code c - 48))%Z) s'
      else acc
  end.

(** The number for the integer [sign * n] read off the digits: the nearest
    double. *)
Definition toNumber (sign n : Z) : JsNum :=
  JsNumber.round (inject_Z (sign * n)).

(** [parseInt(s, 10)]: leading white space, an optional sign, then decimal
    digits; [NaN] without a digit.  The digits denote an integer, and the
    result is the double nearest to it (["9007199254740995"] gives
    9007199254740996), [Infinity] from [2 ^ 1024 - 2 ^ 970] on. *)
Definition parseInt10 (s : string) : JsNum :=
  let s := trimStart s in
  let '(sign, s) :=
    match s with
    | String c s' =>
        if bool_decide (c = hyphen) then ((-1)%Z, s')
        else if bool_decide (c = ascii_of_nat 43) then (1%Z, s')
        else (1%Z, s)
    | EmptyString => (1%Z, s)
    end in
  match digitsValue None s with
  | Some n => toNumber sign n
  | None => NaN
  end.

(** [Number.isFinite(n)] *)
Definition isFinite (n : JsNum) : bool :=
  match n with
  | Fin _ => true
  | _ => false
  end.

(** [(a + b) / 2]: the sum is rounded to a double (two large numbers add
    up to [Infinity]), and so is its half. *)
Definition mean (a b : JsNum) : JsNum :=
  JsNumber.halve (JsNumber.add a b).

(** [parseLifespanAverage(lifespan)]: [None] is the JavaScript [null]; the
    argument [None] is a lifespan that is not there. *)
Definition parseLifespanAverage (lifespan : option string) : option JsNum :=
  match lifespan with
  | None => None
  | Some lifespan =>
      if strictEq lifespan "" then None else
      let cleaned := keepDigitsAndDashes lifespan in
      let normalized := trim (normalizeDashes cleaned) in
      if Nat.eqb (String.length normalized) 0 then None else
      let parts :=
        List.filter (λ s, negb (strictEq s ""))
                    (trim <$> split hyphen normalized) in
      match parts with
      | [] => None
      | [p] =>
          let n := parseInt10 p in
          if isFinite n then Some n else None
      | p0 :: p1 :: _ =>
          let a := parseInt10 p0 in
          let b := parseInt10 p1 in
          if isFinite a && isFinite b then Some (mean a b) else None
      end
  end.

End Utils.
Export Utils.


(* ================================================================== *)
(** ** The data model ([index.d.ts]) *)

(** [{ min: number; max: number }] *)
Module MinMax.
Record t : Type := { min : JsNum; max : JsNum }.
End MinMax.

(** [weight?: { lbs?: ...; kgs?: ... }] *)
Record Weight : Type := { lbs : option MinMax.t; kgs : option MinMax.t }.

(** [{ children?: boolean; otherDogs?: boolean; cats?: boolean }], the shape
    of a breed's [compatibility] and of the [compatibility] preference. *)
Record Compatibility : Type :=
  { children : option bool; otherDogs : option bool; cats : option bool }.

(** [DogBreedData]: one entry of the catalog.  An optional field that is
    not there is [None] (the JavaScript [undefined]). *)
Record DogBreedData : Type :=
  { name : string;
    origin : string;
    size : option string;
    temperament : option (list string);
    energyLevel : option string;
    trainability : option string;
    shedding : option string;
    lifespan : option string;
    groomingNeeds : option string;
    compatibility : option Compatibility;
    weight : option Weight;
    names : option (gmap string string) }.

(** The options of the lookups: [{ fuzzy?: boolean; lang?: string }]. *)
Record Options : Type := { fuzzy : option bool; lang : option string }.

(** [RecommendationPreferences] *)
Module Pref.

Record WeightRange : Type :=
  { min : JsNum; max : JsNum; unit : option string }.

Record t : Type :=
  { size : option string;
    energyLevel : option string;
    trainability : option string;
    shedding : option string;
    groomingNeeds : option string;
    origin : option string;
    compatibility : option Compatibility;
    weightRange : option WeightRange;
    minLifespan : option JsNum }.

(** [{}] *)
Definition empty : t :=
  {| size := None; energyLevel := None; trainability := None;
     shedding := None; groomingNeeds := None; origin := None;
     compatibility := None; weightRange := None; minLifespan := None |}.

End Pref.

(** [BreedComparison], the value [compareBreeds] returns. *)
Module Cmp.

Record Field (A : Type) : Type :=
  { f_breed1 : A; f_breed2 : A; f_match : bool }.
Arguments Build_Field {A}.

Record CompatibilityCmp : Type :=
  { c_breed1 : option Compatibility;
    c_breed2 : option Compatibility;
    children : Field bool;
    otherDogs : Field bool;
    cats : Field bool }.

Record Comparison : Type :=
  { size : Field (option string);
    energyLevel : Field (option string);
    trainability : Field (option string);
    shedding : Field (option string);
    lifespan : Field (option string);
    groomingNeeds : Field (option string);
    origin : Field string;
    compatibility : CompatibilityCmp;
    weight : option Weight * option Weight }.

Record t : Type :=
  { breed1 : DogBreedData; breed2 : DogBreedData; comparison : Comparison }.

End Cmp.

(* ================================================================== *)
(** ** JavaScript built-ins used by [index.js] *)

(** The names every object inherits from [Object.prototype]: reading one
    of them on a plain object that has no own property of that name gives a
    function (for [__proto__] the prototype), never a string. *)
Definition objectPrototypeNames : list string :=
  ["constructor"; "__defineGetter__"; "__defineSetter__"; "hasOwnProperty";
   "__lookupGetter__"; "__lookupSetter__"; "isPrototypeOf";
   "propertyIsEnumerable"; "toString"; "valueOf"; "__proto__";
   "toLocaleString"].

(** What [obj[key]] evaluates to on an object whose own properties are
    strings. *)
Inductive PropertyValue : Type :=
| PString (s : string)
| PInherited
| PUndefined.

Definition getProperty (obj : gmap string string) (key : string)
  : PropertyValue :=
  match obj !! key with
  | Some s => PString s
  | None =>
      if bool_decide (key ∈ objectPrototypeNames) then PInherited
      else PUndefined
  end.

(** [array.find(callback)] with a callback that may throw; [None] is
    [undefined]. *)
Fixpoint array_find {A : Type} (callback : A → Result bool) (l : list A)
  : Result (option A) :=
  match l with
  | [] => Ok None
  | x :: l' =>
      found <- callback x ;;
      if (found : bool) then Ok (Some x) else array_find callback l'
  end.

(** [array.sort(compare)].  ECMAScript requires the sort to be stable, and
    with a comparator that is a consistent ordering the sorted array is then
    determined: it is the one insertion from the right produces, each
    element going in front of the first element it does not exceed. *)
Fixpoint array_sort_insert {A : Type} (compare : A → A → Z) (x : A)
  (sorted : list A) : list A :=
  match sorted with
  | [] => [x]
  | y :: sorted' =>
      if (compare x y <=? 0)%Z then x :: y :: sorted'
      else y :: array_sort_insert compare x sorted'
  end.

Definition array_sort {A : Type} (compare : A → A → Z) (l : list A)
  : list A :=
  foldr (array_sort_insert compare) [] l.

(* ================================================================== *)
(** ** [index.js] *)

(** [normalizeBreed(breed)] on a string.  The [typeof breed !== 'string']
    guard can only fire in [findBreed], where it is written out. *)
Definition normalizeBreed (breed : string) : string :=
  toLowerCase (trim breed).

(** Bidirectional containment:
    [x.includes(y) || y.includes(x)]. *)
Definition containsEither (x y : string) : bool :=
  includes x y || includes y x.

(** A breed with its transient score: [{ ...dog, _matchScore: d }].
    [DogBreedData] has no property of that name, so the spread keeps every
    property of [dog] and adds one. *)
Record Scored : Type := { dog : DogBreedData; _matchScore : nat }.

Section Engine.

(** [const dogBreeds = require('./dogs.json')] *)
Variable dogBreeds : list DogBreedData.

(** [findBreed(breed, { fuzzy = true, lang = 'en' } = {})].  An entry of
    the catalog is an object whose [name] is a string, so the callback
    starts from [dog.name] and its first guard,
    [if (typeof name !== 'string') return false], does not fire; after
    [name = dog.names[lang]] the name can be something else than a string,
    and then [normalizeBreed] throws. *)
Definition findBreed (breed : string) (options : Options)
  : Result (option DogBreedData) :=
  let fuzzy := default true (fuzzy options) in
  let lang := default "en" (lang options) in
  let normalized := normalizeBreed breed in
  array_find (λ dog,
    let name := PString (name dog) in
    let name :=
      match names dog with
      | Some dog_names =>
          match getProperty dog_names lang with
          | PString "" | PUndefined => name
          | alt => alt
          end
      | None => name
      end in
    match name with
    | PString name =>
        let normName := normalizeBreed name in
        if fuzzy then Ok (containsEither normName normalized)
        else Ok (strictEq normName normalized)
    | _ => Throw (TypeError "Breed name must be a string")
    end) dogBreeds.

(** [isValidDogBreed(breed, options = {})] *)
Definition isValidDogBreed (breed : string) (options : Options)
  : Result bool :=
  validateNonEmptyString breed "Breed name" ;;;
  found <- findBreed breed options ;;
  Ok (bool_decide (found ≠ None)).

(** [getDogBreedOrigin(breed, options = {})] *)
Definition getDogBreedOrigin (breed : string) (options : Options)
  : Result (option string) :=
  validateNonEmptyString breed "Breed name" ;;;
  found <- findBreed breed options ;;
  Ok (match found with
      | Some found =>
          if strictEq (origin found) "" then None else Some (origin found)
      | None => None
      end).

(** [getDogBreedData(breed, options = {})] *)
Definition getDogBreedData (breed : string) (options : Options)
  : Result (option DogBreedData) :=
  validateNonEmptyString breed "Breed name" ;;;
  findBreed breed options.

(** [getDogsByWeightRange(min, max, unit = 'lbs')] *)
Definition getDogsByWeightRange (min max : JsNum) (unit : option string)
  : Result (list DogBreedData) :=
  validateNumberRange min max ;;;
  let sortedMin := JsNumber.min min max in
  let sortedMax := JsNumber.max min max in
  normalizedUnit <- validateUnit unit ;;
  Ok (List.filter (λ dog,
        match weight dog with
        | None => false
        | Some dog_weight =>
            let weightData :=
              if strictEq normalizedUnit "kgs" then kgs dog_weight
              else lbs dog_weight in
            match weightData with
            | None => false
            | Some weightData =>
                let dogMin := MinMax.min weightData in
                let dogMax := MinMax.max weightData in
                negb (JsNumber.lt dogMax sortedMin
                      || JsNumber.gt dogMin sortedMax)
            end
        end) dogBreeds).

(** [fuzzySearchBreeds(searchTerm, maxDistance = 2)] *)
Definition fuzzySearchBreeds (searchTerm : string) (maxDistance : JsNum)
  : Result (list DogBreedData) :=
  validateNonEmptyString searchTerm "Search term" ;;;
  validateNonNegativeNumber maxDistance "maxDistance" ;;;
  let normalized := normalizeBreed searchTerm in
  let substringMatches :=
    List.filter (λ dog,
      let dogName := normalizeBreed (name dog) in
      includes dogName normalized || includes normalized dogName)
      dogBreeds in
  let fuzzyMatches :=
    (λ dog,
       let dogName := normalizeBreed (name dog) in
       {| dog := dog;
          _matchScore := levenshteinDistance normalized dogName |})
    <$> List.filter (λ dog,
          let dogName := normalizeBreed (name dog) in
          if includes dogName normalized || includes normalized dogName
          then false
          else
            let distance := levenshteinDistance normalized dogName in
            JsNumber.le (JsNumber.of_nat distance) maxDistance)
          dogBreeds in
  let fuzzyMatches :=
    array_sort
      (λ a b, (Z.of_nat (_matchScore a) - Z.of_nat (_matchScore b))%Z)
      fuzzyMatches in
  Ok (substringMatches ++ (dog <$> fuzzyMatches))%list.

(** [Breed "${breed}" not found] *)
Definition not_found_message (breed : string) : string :=
  "Breed " ++ dquote ++ breed ++ dquote ++ " not found".

(** [{ breed1: x, breed2: y, match: x === y }] *)
Definition compareField {A : Type} `{EqDecision A} (x y : A) : Cmp.Field A :=
  Cmp.Build_Field x y (bool_decide (x = y)).

(** [{ breed1: c1?.key || false, breed2: c2?.key || false,
       match: c1?.key === c2?.key }] *)
Definition compareCompatibility (key : Compatibility → option bool)
  (c1 c2 : option Compatibility) : Cmp.Field bool :=
  Cmp.Build_Field (default false (c1 ≫= key)) (default false (c2 ≫= key))
                  (bool_decide (c1 ≫= key = c2 ≫= key)).

(** [compareBreeds(breed1, breed2)] *)
Definition compareBreeds (breed1 breed2 : string) : Result Cmp.t :=
  validateNonEmptyString breed1 "Breed 1" ;;;
  validateNonEmptyString breed2 "Breed 2" ;;;
  dog1 <- getDogBreedData breed1 {| fuzzy := Some true; lang := None |} ;;
  dog2 <- getDogBreedData breed2 {| fuzzy := Some true; lang := None |} ;;
  match dog1 with
  | None => Throw (Error (not_found_message breed1))
  | Some dog1 =>
  match dog2 with
  | None => Throw (Error (not_found_message breed2))
  | Some dog2 =>
      Ok {| Cmp.breed1 := dog1;
            Cmp.breed2 := dog2;
            Cmp.comparison :=
              {| Cmp.size := compareField (size dog1) (size dog2);
                 Cmp.energyLevel :=
                   compareField (energyLevel dog1) (energyLevel dog2);
                 Cmp.trainability :=
                   compareField (trainability dog1) (trainability dog2);
                 Cmp.shedding := compareField (shedding dog1) (shedding dog2);
                 Cmp.lifespan := compareField (lifespan dog1) (lifespan dog2);
                 Cmp.groomingNeeds :=
                   compareField (groomingNeeds dog1) (groomingNeeds dog2);
                 Cmp.origin := compareField (origin dog1) (origin dog2);
                 Cmp.compatibility :=
                   {| Cmp.c_breed1 := compatibility dog1;
                      Cmp.c_breed2 := compatibility dog2;
                      Cmp.children :=
                        compareCompatibility children
                          (compatibility dog1) (compatibility dog2);
                      Cmp.otherDogs :=
                        compareCompatibility otherDogs
                          (compatibility dog1) (compatibility dog2);
                      Cmp.cats :=
                        compareCompatibility cats
                          (compatibility dog1) (compatibility dog2) |};
                 Cmp.weight := (weight dog1, weight dog2) |} |}
  end
  end.

(** [pref && field !== pref] for a string preference: the empty string is
    falsy, and a field that is not there differs from every string. *)
Definition mismatch (pref field : option string) : bool :=
  match pref with
  | Some pref =>
      negb (strictEq pref "") && negb (bool_decide (field = Some pref))
  | None => false
  end.

(** [typeof pref === 'boolean' && field !== pref] *)
Definition mismatchBool (pref field : option bool) : bool :=
  match pref with
  | Some pref => negb (bool_decide (field = Some pref))
  | None => false
  end.

(** The callback of the [filter] in [getRecommendedBreeds]: the chain of
    early [return false], then [return true]. *)
Definition recommended (preferences : Pref.t) (dog : DogBreedData) : bool :=
  let minLifespan := default JsNumber.zero (Pref.minLifespan preferences) in
  if mismatch (Pref.size preferences) (size dog) then false else
  if mismatch (Pref.energyLevel preferences) (energyLevel dog) then false else
  if mismatch (Pref.trainability preferences) (trainability dog)
  then false else
  if mismatch (Pref.shedding preferences) (shedding dog) then false else
  if mismatch (Pref.groomingNeeds preferences) (groomingNeeds dog)
  then false else
  if mismatch (Pref.origin preferences) (Some (origin dog)) then false else
  if match Pref.compatibility preferences with
     | Some pref_compatibility =>
         match compatibility dog with
         | None => true
         | Some dog_compatibility =>
             mismatchBool (children pref_compatibility)
                          (children dog_compatibility)
             || mismatchBool (otherDogs pref_compatibility)
                             (otherDogs dog_compatibility)
             || mismatchBool (cats pref_compatibility)
                             (cats dog_compatibility)
         end
     | None => false
     end
  then false else
  if match Pref.weightRange preferences, weight dog with
     | Some weightRange, Some dog_weight =>
         let unit :=
           match Pref.unit weightRange with
           | Some "" | None => "lbs"
           | Some unit => unit
           end in
         let weightData :=
           if strictEq unit "kgs" then kgs dog_weight else lbs dog_weight in
         match weightData with
         | None => true
         | Some weightData =>
             let dogMin := MinMax.min weightData in
             let dogMax := MinMax.max weightData in
             let inRange :=
               negb (JsNumber.lt dogMax (Pref.min weightRange)
                     || JsNumber.gt dogMin (Pref.max weightRange)) in
             negb inRange
         end
     | Some _, None => true
     | None, _ => false
     end
  then false else
  if JsNumber.gt minLifespan JsNumber.zero
     && match lifespan dog with
        | Some "" | None => false
        | Some _ => true
        end
  then
    match parseLifespanAverage (lifespan dog) with
    | Some avgLifespan =>
        if JsNumber.lt avgLifespan minLifespan then false else true
    | None => true
    end
  else if JsNumber.gt minLifespan JsNumber.zero then false
  else true.

(** [getRecommendedBreeds(preferences = {})].  The argument is an object
    here, so the [TypeError] of the [typeof] guard cannot be raised. *)
Definition getRecommendedBreeds (preferences : Pref.t) : list DogBreedData :=
  List.filter (recommended preferences) dogBreeds.

End Engine.

(** *** The other functions of [index.js] *)

(** [compatibility[key]] for one of the three valid keys; no other key
    gets past [validateCompatibilityKey]. *)
Definition compatibilityAt (key : string) (c : Compatibility) : option bool :=
  if strictEq key "children" then children c
  else if strictEq key "otherDogs" then otherDogs c
  else if strictEq key "cats" then cats c
  else None.

Section Filters.

Variable dogBreeds : list DogBreedData.

(** [getDogsByCountry(country)]; [dog.origin] is a string. *)
Definition getDogsByCountry (country : string) : Result (list DogBreedData) :=
  validateNonEmptyString country "Country" ;;;
  let normalized := normalizeBreed country in
  Ok (List.filter (λ dog,
        includes (normalizeBreed (origin dog)) normalized
        || includes normalized (normalizeBreed (origin dog))) dogBreeds).

(** [getDogsBySize(size)] *)
Definition getDogsBySize (size : string) : Result (list DogBreedData) :=
  validateNonEmptyString size "Size" ;;;
  let normalized := normalizeBreed size in
  Ok (List.filter (λ dog,
        match dog with
        | {| size := None |} => false
        | {| size := Some dog_size |} =>
            strictEq (normalizeBreed dog_size) normalized
        end) dogBreeds).

(** [getDogsByTemperament(trait)]; [array.some] is [existsb]. *)
Definition getDogsByTemperament (trait : string)
  : Result (list DogBreedData) :=
  validateNonEmptyString trait "Temperament trait" ;;;
  let normalized := normalizeBreed trait in
  Ok (List.filter (λ dog,
        match temperament dog with
        | None => false
        | Some dog_temperament =>
            existsb (λ t, strictEq (normalizeBreed t) normalized)
                    dog_temperament
        end) dogBreeds).

(** [getDogsByEnergyLevel(level)] *)
Definition getDogsByEnergyLevel (level : string)
  : Result (list DogBreedData) :=
  validateNonEmptyString level "Energy level" ;;;
  let normalized := normalizeBreed level in
  Ok (List.filter (λ dog,
        match energyLevel dog with
        | None => false
        | Some dog_level => strictEq (normalizeBreed dog_level) normalized
        end) dogBreeds).

(** [getDogsByTrainability(level)] *)
Definition getDogsByTrainability (level : string)
  : Result (list DogBreedData) :=
  validateNonEmptyString level "Trainability level" ;;;
  let normalized := normalizeBreed level in
  Ok (List.filter (λ dog,
        match trainability dog with
        | None => false
        | Some dog_level => strictEq (normalizeBreed dog_level) normalized
        end) dogBreeds).

(** [getDogsByShedding(level)] *)
Definition getDogsByShedding (level : string) : Result (list DogBreedData) :=
  validateNonEmptyString level "Shedding level" ;;;
  let normalized := normalizeBreed level in
  Ok (List.filter (λ dog,
        match shedding dog with
        | None => false
        | Some dog_level => strictEq (normalizeBreed dog_level) normalized
        end) dogBreeds).

(** [getDogsByGroomingNeeds(level)] *)
Definition getDogsByGroomingNeeds (level : string)
  : Result (list DogBreedData) :=
  validateNonEmptyString level "Grooming needs level" ;;;
  let normalized := normalizeBreed level in
  Ok (List.filter (λ dog,
        match groomingNeeds dog with
        | None => false
        | Some dog_level => strictEq (normalizeBreed dog_level) normalized
        end) dogBreeds).

(** [getDogsByCompatibility(key, value)] *)
Definition getDogsByCompatibility (key : string) (value : bool)
  : Result (list DogBreedData) :=
  validateCompatibilityKey key ;;;
  validateBoolean value "Compatibility value" ;;;
  Ok (List.filter (λ dog,
        match compatibility dog with
        | None => false
        | Some dog_compatibility =>
            bool_decide (compatibilityAt key dog_compatibility = Some value)
        end) dogBreeds).

(** [fuzzySearchBreeds2(searchTerm, maxDistance = 2)], the one-pass variant
    next to [fuzzySearchBreeds]. *)
Definition fuzzySearchBreeds2 (searchTerm : string) (maxDistance : JsNum)
  : Result (list DogBreedData) :=
  validateNonEmptyString searchTerm "Search term" ;;;
  validateNonNegativeNumber maxDistance "maxDistance" ;;;
  let normalized := normalizeBreed searchTerm in
  Ok (dog
      <$> array_sort
            (λ a b, (Z.of_nat (_matchScore a) - Z.of_nat (_matchScore b))%Z)
            (List.filter (λ dog,
               JsNumber.le (JsNumber.of_nat (_matchScore dog)) maxDistance)
               ((λ dog,
                   let dogName := normalizeBreed (name dog) in
                   let distance := levenshteinDistance normalized dogName in
                   let isPartialMatch :=
                     includes dogName normalized
                     || includes normalized dogName in
                   {| dog := dog;
                      _matchScore :=
                        if isPartialMatch then 0 else distance |})
                <$> dogBreeds))).

End Filters.

(* ================================================================== *)
(** ** [fuzzySearchBreeds] on the object store

    The arrays of [index.js] hold references.  In this second embedding of
    the search the breeds live in a store, the catalog is a list of
    references into it, and the search is a state transformer: it reads
    objects, and it allocates the copies that the spread
    [{ ...dog, _matchScore }] and the rest pattern
    [({ _matchScore, ...dog }) => dog] create. *)
Module Heap.

(** An object by its own properties: the fields of a breed and, when it has
    one, the property [_matchScore]. *)
Record Obj : Type := { fields : DogBreedData; _matchScore : option nat }.

Abbreviation loc := nat.
Abbreviation Store := (list Obj).

(** A computation on the store.  [None] stands for following a reference
    to nothing, which no JavaScript program can do. *)
Definition M (A : Type) : Type := Store → option (A * Store).

Definition ret {A : Type} (a : A) : M A := λ h, Some (a, h).

Definition bind {A B : Type} (m : M A) (k : A → M B) : M B :=
  λ h, match m h with
       | Some (a, h') => k a h'
       | None => None
       end.

(** Reading the object behind a reference. *)
Definition deref (l : loc) : M Obj := λ h, (λ o, (o, h)) <$> h !! l.

(** A new object; its reference is fresh. *)
Definition alloc (o : Obj) : M loc :=
  λ h, Some (length h, (h ++ [o])%list).

(** [array.filter(callback)] and [array.map(callback)], the callback run
    on the elements in order. *)
Fixpoint array_filter (callback : loc → M bool) (l : list loc)
  : M (list loc) :=
  match l with
  | [] => ret []
  | x :: l' =>
      bind (callback x) (λ keep,
      bind (array_filter callback l') (λ rest,
      ret (if (keep : bool) then x :: rest else rest)))
  end.

Fixpoint array_map (callback : loc → M loc) (l : list loc) : M (list loc) :=
  match l with
  | [] => ret []
  | x :: l' =>
      bind (callback x) (λ y,
      bind (array_map callback l') (λ rest,
      ret (y :: rest)))
  end.

(** [a._matchScore] of the object behind [a]; the objects that are sorted
    all carry the property. *)
Definition score (h : Store) (a : loc) : nat :=
  default 0 (h !! a ≫= _matchScore).

(** [array.sort((a, b) => a._matchScore - b._matchScore)]: the comparator
    only reads. *)
Definition sort_by_score (l : list loc) : M (list loc) :=
  λ h, Some (array_sort
               (λ a b, (Z.of_nat (score h a) - Z.of_nat (score h b))%Z) l,
             h).

Definition fuzzySearchBreeds (dogBreeds : list loc) (searchTerm : string)
  (maxDistance : JsNum) : M (Result (list loc)) :=
  match validateNonEmptyString searchTerm "Search term" ;;;
        validateNonNegativeNumber maxDistance "maxDistance" with
  | Throw e => ret (Throw e)
  | Ok _ =>
      let normalized := normalizeBreed searchTerm in
      bind (array_filter (λ dog,
              bind (deref dog) (λ dog,
              let dogName := normalizeBreed (name (fields dog)) in
              ret (includes dogName normalized
                   || includes normalized dogName)))
              dogBreeds) (λ substringMatches,
      bind (array_filter (λ dog,
              bind (deref dog) (λ dog,
              let dogName := normalizeBreed (name (fields dog)) in
              if includes dogName normalized || includes normalized dogName
              then ret false
              else
                let distance := levenshteinDistance normalized dogName in
                ret (JsNumber.le (JsNumber.of_nat distance) maxDistance)))
              dogBreeds) (λ fuzzyMatches,
      bind (array_map (λ dog,
              bind (deref dog) (λ dog,
              let dogName := normalizeBreed (name (fields dog)) in
              alloc {| fields := fields dog;
                       _matchScore :=
                         Some (levenshteinDistance normalized dogName) |}))
              fuzzyMatches) (λ fuzzyMatches,
      bind (sort_by_score fuzzyMatches) (λ fuzzyMatches,
      bind (array_map (λ scored,
              bind (deref scored) (λ scored,
              alloc {| fields := fields scored; _matchScore := None |}))
              fuzzyMatches) (λ stripped,
      ret (Ok (substringMatches ++ stripped)%list))))))
  end.

End Heap.

(* ================================================================== *)
(** ** Definitions used to state and prove the properties *)

(** The recurrence the matrix of [levenshteinDistance] is filled by:
    [dist a b i j] relates the first [i] code units of [b] to the first [j]
    of [a]. *)
Fixpoint dist (a b : string) (i j : nat) {struct i} : nat :=
  match i with
  | 0 => j
  | S i' =>
      (fix row (j : nat) : nat :=
         match j with
         | 0 => S i'
         | S j' =>
             min3 (dist a b i' (S j') + 1) (row j' + 1)
                  (dist a b i' j'
                   + (if decide (charAt b i' = charAt a j') then 0 else 1))
         end) j
  end.

(** The matrix while row [i] is being filled and holds its entries
    [0..j]: the rows above are complete, the rows below still are the
    one-element arrays of [Array.from]. *)
Definition full_row (a b : string) (i : nat) : list nat :=
  dist a b i <$> seq 0 (String.length a + 1).
Definition part_row (a b : string) (i j : nat) : list nat :=
  dist a b i <$> seq 0 (j + 1).
Definition stub_rows (i n : nat) : list (list nat) :=
  (λ i, [i]) <$> seq i n.
Definition filled (a b : string) (i j : nat) : list (list nat) :=
  ((full_row a b <$> seq 0 i)
   ++ part_row a b i j :: stub_rows (S i) (String.length b - i))%list.

(** The comparator [(x, y) => key(x) - key(y)]. *)
Definition by_key {A : Type} (key : A → nat) (x y : A) : Z :=
  (Z.of_nat (key x) - Z.of_nat (key y))%Z.

(** The three notions the statements about [fuzzySearchBreeds] are phrased
    in, each the expression the function evaluates on a breed. *)
Definition substringMatch (searchTerm : string) (dog : DogBreedData) : bool :=
  containsEither (normalizeBreed (name dog)) (normalizeBreed searchTerm).

Definition editDistance (searchTerm : string) (dog : DogBreedData) : nat :=
  levenshteinDistance (normalizeBreed searchTerm) (normalizeBreed (name dog)).

Definition fuzzyMatch (searchTerm : string) (maxDistance : JsNum)
  (dog : DogBreedData) : bool :=
  negb (substringMatch searchTerm dog)
  && JsNumber.le (JsNumber.of_nat (editDistance searchTerm dog)) maxDistance.

(** The name [findBreed] compares the query with: the breed's own
    [names[lang]] when that is a non-empty string, its [name] otherwise. *)
Definition comparisonName (lang : string) (dog : DogBreedData) : string :=
  match names dog ≫= (.!! lang) with
  | Some "" | None => name dog
  | Some alt => alt
  end.

(** The comparison name in the words of the specification (4.3): the
    alternate name for [lang] when [lang] is not ["en"] and the breed has
    one, its [name] otherwise. *)
Definition specComparisonName (lang : string) (dog : DogBreedData) : string :=
  if bool_decide (lang ≠ "en")
  then default (name dog) (names dog ≫= (.!! lang))
  else name dog.

(** Two spellings of one weight unit: both normalize into the same
    alias set ([None] is the omitted argument, which stands for ['lbs']). *)
Definition sameUnitAlias (unit unit' : option string) : Prop :=
  let normalized := trim (toLowerCase (default "lbs" unit)) in
  let normalized' := trim (toLowerCase (default "lbs" unit')) in
  (normalized ∈ UNIT_ALIASES_kgs ∧ normalized' ∈ UNIT_ALIASES_kgs)
  ∨ (normalized ∈ UNIT_ALIASES_lbs ∧ normalized' ∈ UNIT_ALIASES_lbs).

(** The weight entry a [weightRange] preference is compared with: the
    kilograms only for the unit ['kgs'] itself, the pounds for every other
    unit and for none. *)
Definition requestedWeight (unit : option string) (dog_weight : Weight)
  : option MinMax.t :=
  if bool_decide (unit = Some "kgs") then kgs dog_weight else lbs dog_weight.

(** The preferences with one criterion taken out. *)
Definition without_compatibility (preferences : Pref.t) : Pref.t :=
  {| Pref.size := Pref.size preferences;
     Pref.energyLevel := Pref.energyLevel preferences;
     Pref.trainability := Pref.trainability preferences;
     Pref.shedding := Pref.shedding preferences;
     Pref.groomingNeeds := Pref.groomingNeeds preferences;
     Pref.origin := Pref.origin preferences;
     Pref.compatibility := None;
     Pref.weightRange := Pref.weightRange preferences;
     Pref.minLifespan := Pref.minLifespan preferences |}.

Definition without_minLifespan (preferences : Pref.t) : Pref.t :=
  {| Pref.size := Pref.size preferences;
     Pref.energyLevel := Pref.energyLevel preferences;
     Pref.trainability := Pref.trainability preferences;
     Pref.shedding := Pref.shedding preferences;
     Pref.groomingNeeds := Pref.groomingNeeds preferences;
     Pref.origin := Pref.origin preferences;
     Pref.compatibility := Pref.compatibility preferences;
     Pref.weightRange := Pref.weightRange preferences;
     Pref.minLifespan := None |}.

(** A sub-field of a breed's compatibility agrees with the preference when
    the preference, if it is set, is the value of the sub-field. *)
Definition agrees (pref field : option bool) : Prop :=
  ∀ wanted, pref = Some wanted → field = Some wanted.

(** On the store: a breed of the catalog as an object (no [_matchScore]),
    the copy with the score, the copy without it, the key of the sort, and
    a list of references read as a list of objects. *)
Definition plain (d : DogBreedData) : Heap.Obj :=
  {| Heap.fields := d; Heap._matchScore := None |}.

Definition attach (searchTerm : string) (o : Heap.Obj) : Heap.Obj :=
  {| Heap.fields := Heap.fields o;
     Heap._matchScore := Some (editDistance searchTerm (Heap.fields o)) |}.

Definition strip (o : Heap.Obj) : Heap.Obj :=
  {| Heap.fields := Heap.fields o; Heap._matchScore := None |}.

Definition score_of (o : Heap.Obj) : nat := default 0 (Heap._matchScore o).

Definition reads (h : list Heap.Obj) (locs : list nat)
  (objs : list Heap.Obj) : Prop :=
  Forall2 (λ l o, h !! l = Some o) locs objs.

(** The objects the search allocates, in the order it allocates them: the
    scored copies of the fuzzy matches, then the copies without the score
    of the sorted ones. *)
Definition scored_copies (searchTerm : string) (maxDistance : JsNum)
  (objs : list Heap.Obj) : list Heap.Obj :=
  attach searchTerm
  <$> List.filter (fuzzyMatch searchTerm maxDistance ∘ Heap.fields) objs.

Definition stripped_copies (searchTerm : string) (maxDistance : JsNum)
  (objs : list Heap.Obj) : list Heap.Obj :=
  strip
  <$> array_sort (by_key score_of)
        (scored_copies searchTerm maxDistance objs).

(** *** Definitions for the further properties *)

(** No white space in front. *)
Definition startsClean (s : string) : Prop :=
  match s with
  | EmptyString => True
  | String c _ => isWhiteSpace c = false
  end.

(** Every code unit of the string is white space. *)
Fixpoint allWhiteSpace (s : string) : bool :=
  match s with
  | EmptyString => true
  | String c s' => isWhiteSpace c && allWhiteSpace s'
  end.

(** The edit distance of two lists of code units, by the textbook
    recursion on their first elements. *)
Fixpoint lev (x y : list ascii) {struct x} : nat :=
  match x with
  | [] => length y
  | c :: x' =>
      (fix lev_row (y : list ascii) : nat :=
         match y with
         | [] => S (length x')
         | d :: y' =>
             min3 (lev x' (d :: y') + 1) (lev_row y' + 1)
                  (lev x' y' + (if decide (c = d) then 0 else 1))
         end) y
  end.

(** One edit: a code unit inserted, deleted or replaced somewhere. *)
Inductive edit1 : list ascii → list ascii → Prop :=
| edit_insert u v c : edit1 (u ++ v) (u ++ c :: v)
| edit_delete u v c : edit1 (u ++ c :: v) (u ++ v)
| edit_substitute u v c d : edit1 (u ++ c :: v) (u ++ d :: v).

(** [n] edits in a row. *)
Inductive edits : nat → list ascii → list ascii → Prop :=
| edits_O x : edits 0 x x
| edits_S n x y z : edit1 x y → edits n y z → edits (S n) x z.

(** The name of the breed lies within [maxDistance] of the search term. *)
Definition withinDistance (searchTerm : string) (maxDistance : JsNum)
  (dog : DogBreedData) : bool :=
  JsNumber.le (JsNumber.of_nat (editDistance searchTerm dog)) maxDistance.

(** The score [fuzzySearchBreeds2] sorts by. *)
Definition matchScore2 (searchTerm : string) (dog : DogBreedData) : nat :=
  if substringMatch searchTerm dog then 0 else editDistance searchTerm dog.

(** The weight entry of a normalized unit. *)
Definition weightIn (normalizedUnit : string) (dog : DogBreedData)
  : option MinMax.t :=
  match weight dog with
  | None => None
  | Some dog_weight =>
      if strictEq normalizedUnit "kgs" then kgs dog_weight
      else lbs dog_weight
  end.

(** The nine criteria of the preferences. *)
Inductive Criterion : Type :=
| BySize | ByEnergyLevel | ByTrainability | ByShedding | ByGroomingNeeds
| ByOrigin | ByCompatibility | ByWeightRange | ByMinLifespan.

(** The preferences with one criterion kept and the others left out. *)
Definition single (k : Criterion) (preferences : Pref.t) : Pref.t :=
  {| Pref.size :=
       if k is BySize then Pref.size preferences else None;
     Pref.energyLevel :=
       if k is ByEnergyLevel then Pref.energyLevel preferences else None;
     Pref.trainability :=
       if k is ByTrainability then Pref.trainability preferences else None;
     Pref.shedding :=
       if k is ByShedding then Pref.shedding preferences else None;
     Pref.groomingNeeds :=
       if k is ByGroomingNeeds then Pref.groomingNeeds preferences else None;
     Pref.origin :=
       if k is ByOrigin then Pref.origin preferences else None;
     Pref.compatibility :=
       if k is ByCompatibility then Pref.compatibility preferences else None;
     Pref.weightRange :=
       if k is ByWeightRange then Pref.weightRange preferences else None;
     Pref.minLifespan :=
       if k is ByMinLifespan then Pref.minLifespan preferences else None |}.

(** A string preference that is not there or empty. *)
Definition falsy (pref : option string) : Prop :=
  pref = None ∨ pref = Some "".

(** Preferences that constrain nothing. *)
Definition unconstrained (preferences : Pref.t) : Prop :=
  falsy (Pref.size preferences)
  ∧ falsy (Pref.energyLevel preferences)
  ∧ falsy (Pref.trainability preferences)
  ∧ falsy (Pref.shedding preferences)
  ∧ falsy (Pref.groomingNeeds preferences)
  ∧ falsy (Pref.origin preferences)
  ∧ Pref.compatibility preferences = None
  ∧ Pref.weightRange preferences = None
  ∧ JsNumber.gt (default JsNumber.zero (Pref.minLifespan preferences))
                JsNumber.zero = false.

(** [{ compatibility: { [key]: value } }] *)
Definition compatibilityOnly (key : string) (value : bool) : Pref.t :=
  {| Pref.size := None; Pref.energyLevel := None; Pref.trainability := None;
     Pref.shedding := None; Pref.groomingNeeds := None; Pref.origin := None;
     Pref.compatibility :=
       Some {| children :=
                 if strictEq key "children" then Some value else None;
               otherDogs :=
                 if strictEq key "otherDogs" then Some value else None;
               cats := if strictEq key "cats" then Some value else None |};
     Pref.weightRange := None;
     Pref.minLifespan := None |}.

(** What the callback of [findBreed] answers for a breed whose compared
    name is a string. *)
Definition nameMatch (fuzzy : bool) (lang query : string)
  (dog : DogBreedData) : bool :=
  let normName := normalizeBreed (comparisonName lang dog) in
  if fuzzy then containsEither normName (normalizeBreed query)
  else strictEq normName (normalizeBreed query).

(** [{}], the options left out. *)
Definition defaults : Options := {| fuzzy := None; lang := None |}.

(** The two sides of a comparison exchanged. *)
Definition mirrorField {A : Type} (f : Cmp.Field A) : Cmp.Field A :=
  Cmp.Build_Field (Cmp.f_breed2 _ f) (Cmp.f_breed1 _ f) (Cmp.f_match _ f).

Definition mirror (r : Cmp.t) : Cmp.t :=
  let c := Cmp.comparison r in
  let cc := Cmp.compatibility c in
  {| Cmp.breed1 := Cmp.breed2 r;
     Cmp.breed2 := Cmp.breed1 r;
     Cmp.comparison :=
       {| Cmp.size := mirrorField (Cmp.size c);
          Cmp.energyLevel := mirrorField (Cmp.energyLevel c);
          Cmp.trainability := mirrorField (Cmp.trainability c);
          Cmp.shedding := mirrorField (Cmp.shedding c);
          Cmp.lifespan := mirrorField (Cmp.lifespan c);
          Cmp.groomingNeeds := mirrorField (Cmp.groomingNeeds c);
          Cmp.origin := mirrorField (Cmp.origin c);
          Cmp.compatibility :=
            {| Cmp.c_breed1 := Cmp.c_breed2 cc;
               Cmp.c_breed2 := Cmp.c_breed1 cc;
               Cmp.children := mirrorField (Cmp.children cc);
               Cmp.otherDogs := mirrorField (Cmp.otherDogs cc);
               Cmp.cats := mirrorField (Cmp.cats cc) |};
          Cmp.weight := (snd (Cmp.weight c), fst (Cmp.weight c)) |} |}.

(** Every [match] flag of a comparison. *)
Definition matchFlags (c : Cmp.Comparison) : list bool :=
  [Cmp.f_match _ (Cmp.size c); Cmp.f_match _ (Cmp.energyLevel c);
   Cmp.f_match _ (Cmp.trainability c); Cmp.f_match _ (Cmp.shedding c);
   Cmp.f_match _ (Cmp.lifespan c); Cmp.f_match _ (Cmp.groomingNeeds c);
   Cmp.f_match _ (Cmp.origin c);
   Cmp.f_match _ (Cmp.children (Cmp.compatibility c));
   Cmp.f_match _ (Cmp.otherDogs (Cmp.compatibility c));
   Cmp.f_match _ (Cmp.cats (Cmp.compatibility c))].

(** Every code unit of the string is a decimal digit. *)
Fixpoint allDigits (s : string) : bool :=
  match s with
  | EmptyString => true
  | String c s' => isDigit c && allDigits s'
  end.

(** Every code unit of the string is a decimal digit or a hyphen. *)
Fixpoint allDigitsOrDashes (s : string) : bool :=
  match s with
  | EmptyString => true
  | String c s' =>
      (isDigit c || bool_decide (c = hyphen)) && allDigitsOrDashes s'
  end.

(** [{ weightRange: { min, max, unit } }] *)
Definition weightRangeOnly (min max : JsNum) (unit : option string)
  : Pref.t :=
  {| Pref.size := None; Pref.energyLevel := None; Pref.trainability := None;
     Pref.shedding := None; Pref.groomingNeeds := None; Pref.origin := None;
     Pref.compatibility := None;
     Pref.weightRange :=
       Some {| Pref.min := min; Pref.max := max; Pref.unit := unit |};
     Pref.minLifespan := None |}.

(** *** A small catalog

    Entries in the shapes [DogBreedData] allows: complete ones, one with
    only the four fields of the first published data (no lifespan, no
    compatibility, no weight), and one whose lifespan holds no number and
    whose weight has no kilograms. *)
Module Sample.

Definition range (low high : Z) : option MinMax.t :=
  Some {| MinMax.min := Fin (inject_Z low);
          MinMax.max := Fin (inject_Z high) |}.

Definition friendly : option Compatibility :=
  Some {| children := Some true; otherDogs := Some true; cats := Some true |}.

Definition golden : DogBreedData :=
  {| name := "Golden Retriever";
     origin := "Canada, United Kingdom (Scotland)";
     size := Some "large";
     temperament := Some ["friendly"; "intelligent"; "devoted"];
     energyLevel := Some "high";
     trainability := Some "high";
     shedding := Some "heavy";
     lifespan := Some "10-12 years";
     groomingNeeds := Some "high";
     compatibility := friendly;
     weight := Some {| lbs := range 55 75; kgs := range 25 34 |};
     names := None |}.

Definition labrador : DogBreedData :=
  {| name := "Labrador Retriever";
     origin := "Canada, United Kingdom (England)";
     size := Some "large";
     temperament := Some ["friendly"; "active"; "outgoing"];
     energyLevel := Some "high";
     trainability := Some "high";
     shedding := Some "heavy";
     lifespan := Some "11-13 years";
     groomingNeeds := Some "moderate";
     compatibility := friendly;
     weight := Some {| lbs := range 55 80; kgs := range 25 36 |};
     names := None |}.

Definition dachshund : DogBreedData :=
  {| name := "Dachshund";
     origin := "Germany";
     size := Some "small";
     temperament := Some ["clever"; "stubborn"; "devoted"];
     energyLevel := Some "medium";
     trainability := Some "moderate";
     shedding := Some "moderate";
     lifespan := Some "12-16 years";
     groomingNeeds := Some "low";
     compatibility :=
       Some {| children := Some true; otherDogs := Some false;
               cats := Some false |};
     weight := Some {| lbs := range 16 32; kgs := range 7 15 |};
     names := Some {[ "de" := "Dackel" ]} |}.

Definition affenpinscher : DogBreedData :=
  {| name := "Affenpinscher";
     origin := "Germany, France";
     size := Some "small";
     temperament := Some ["confident"; "curious"];
     energyLevel := None;
     trainability := None;
     shedding := None;
     lifespan := None;
     groomingNeeds := None;
     compatibility := None;
     weight := None;
     names := None |}.

Definition village_dog : DogBreedData :=
  {| name := "Village Dog";
     origin := "Worldwide";
     size := Some "medium";
     temperament := Some ["alert"];
     energyLevel := Some "medium";
     trainability := Some "moderate";
     shedding := Some "moderate";
     lifespan := Some "varies";
     groomingNeeds := Some "low";
     compatibility := friendly;
     weight := Some {| lbs := range 30 60; kgs := None |};
     names := None |}.

Definition dogBreeds : list DogBreedData :=
  [golden; labrador; dachshund; affenpinscher; village_dog].

Definition number (n : Z) : JsNum := Fin (inject_Z n).

Definition exact (language : option string) : Options :=
  {| fuzzy := Some false; lang := language |}.

Definition no_constraint : Compatibility :=
  {| children := None; otherDogs := None; cats := None |}.

Definition only_compatibility (c : Compatibility) : Pref.t :=
  {| Pref.size := None; Pref.energyLevel := None; Pref.trainability := None;
     Pref.shedding := None; Pref.groomingNeeds := None; Pref.origin := None;
     Pref.compatibility := Some c; Pref.weightRange := None;
     Pref.minLifespan := None |}.

Definition only_weightRange (w : Pref.WeightRange) : Pref.t :=
  {| Pref.size := None; Pref.energyLevel := None; Pref.trainability := None;
     Pref.shedding := None; Pref.groomingNeeds := None; Pref.origin := None;
     Pref.compatibility := None; Pref.weightRange := Some w;
     Pref.minLifespan := None |}.

Definition only_minLifespan (n : JsNum) : Pref.t :=
  {| Pref.size := None; Pref.energyLevel := None; Pref.trainability := None;
     Pref.shedding := None; Pref.groomingNeeds := None; Pref.origin := None;
     Pref.compatibility := None; Pref.weightRange := None;
     Pref.minLifespan := Some n |}.

(** A breed with an alternate English name. *)
Definition shepherd : DogBreedData :=
  {| name := "German Shepherd Dog";
     origin := "Germany";
     size := Some "large";
     temperament := Some ["confident"; "courageous"];
     energyLevel := Some "high";
     trainability := Some "high";
     shedding := Some "heavy";
     lifespan := Some "9-13 years";
     groomingNeeds := Some "moderate";
     compatibility := friendly;
     weight := Some {| lbs := range 50 90; kgs := range 22 40 |};
     names := Some {[ "en" := "Alsatian" ]} |}.

End Sample.

(* ================================================================== *)
(** * Properties *)

(** ** The edit distance *)

Section Recurrence.
Variables a b : string.

Lemma dist_0_l j : dist a b 0 j = j.
Proof. reflexivity. Qed.

Lemma dist_0_r i : dist a b i 0 = i.
Proof. by destruct i. Qed.

Lemma dist_S_S i j :
  dist a b (S i) (S j) =
  min3 (dist a b i (S j) + 1) (dist a b (S i) j + 1)
       (dist a b i j + (if decide (charAt b i = charAt a j) then 0 else 1)).
Proof. reflexivity. Qed.

Local Abbreviation alen := (String.length a).
Local Abbreviation blen := (String.length b).

Lemma filled_lookup_done i j i' :
  i' < i → filled a b i j !! i' = Some (full_row a b i').
Proof.
  intros Hi. unfold filled.
  rewrite lookup_app_l by (rewrite length_fmap, length_seq; lia).
  rewrite list_lookup_fmap, lookup_seq_lt by lia. done.
Qed.

Lemma filled_lookup_cur i j : filled a b i j !! i = Some (part_row a b i j).
Proof.
  unfold filled.
  rewrite lookup_app_r by (rewrite length_fmap, length_seq; lia).
  rewrite length_fmap, length_seq, Nat.sub_diag. done.
Qed.

(** Reads in a finished row and in the row being filled. *)
Lemma cell_done i j i' j' :
  i' < i → j' ≤ alen → cell (filled a b i j) i' j' = dist a b i' j'.
Proof.
  intros Hi Hj. unfold cell. rewrite filled_lookup_done by done. simpl.
  unfold full_row. rewrite list_lookup_fmap, lookup_seq_lt by lia.
  done.
Qed.

Lemma cell_cur i j j' :
  j' ≤ j → cell (filled a b i j) i j' = dist a b i j'.
Proof.
  intros Hj. unfold cell. rewrite filled_lookup_cur. simpl.
  unfold part_row. rewrite list_lookup_fmap, lookup_seq_lt by lia. done.
Qed.

(** The write [matrix[i][j+1] = ...] lands one past the end of row [i]. *)
Lemma set_cell_filled i j :
  set_cell (filled a b i j) i (S j) (dist a b i (S j)) = filled a b i (S j).
Proof.
  unfold set_cell, filled.
  rewrite alter_app_r_alt by (rewrite length_fmap, length_seq; lia).
  rewrite length_fmap, length_seq, Nat.sub_diag. simpl. do 2 f_equal.
  unfold array_set, part_row. rewrite length_fmap, length_seq.
  rewrite decide_False by lia.
  replace (S j + 1) with (S (j + 1)) by lia.
  rewrite seq_S, fmap_app. simpl. do 3 f_equal. lia.
Qed.

Lemma filled_next i : i < blen → filled a b i alen = filled a b (S i) 0.
Proof.
  intros Hi. unfold filled.
  rewrite seq_S, fmap_app, <- app_assoc. simpl. f_equal.
  replace (blen - i) with (S (blen - S i)) by lia.
  reflexivity.
Qed.

Lemma init_filled : (λ i, [i]) <$> seq 0 (blen + 1) = filled a b 0 0.
Proof.
  unfold filled. simpl. replace (blen + 1) with (S blen) by lia.
  simpl. rewrite Nat.sub_0_r. done.
Qed.

(** [for (let j = 0; j <= alen; j++) matrix[0][j] = j] *)
Lemma first_row_loop n :
  foldl (λ m j, set_cell m 0 j j) (filled a b 0 0) (seq 0 (S n))
  = filled a b 0 n.
Proof.
  induction n as [|n IH].
  - reflexivity.
  - rewrite seq_S, foldl_snoc, IH.
    change (0 + S n) with (dist a b 0 (S n)). apply (set_cell_filled 0 n).
Qed.

(** The inner loop over [j] for one row. *)
Lemma inner_loop i n :
  n ≤ alen →
  foldl (λ m j,
      let cost :=
        if decide (charAt b (S i - 1) = charAt a (j - 1)) then 0 else 1 in
      set_cell m (S i) j
        (min3 (cell m (S i - 1) j + 1) (cell m (S i) (j - 1) + 1)
              (cell m (S i - 1) (j - 1) + cost)))
    (filled a b (S i) 0) (seq 1 n) = filled a b (S i) n.
Proof.
  induction n as [|n IH]; intros Hn.
  - reflexivity.
  - rewrite seq_S, foldl_snoc, IH by lia.
    change (1 + n) with (S n). cbv zeta.
    replace (S i - 1) with i by lia. replace (S n - 1) with n by lia.
    rewrite (cell_done (S i) n i (S n)) by lia.
    rewrite (cell_cur (S i) n n) by lia.
    rewrite (cell_done (S i) n i n) by lia.
    rewrite <- dist_S_S. apply set_cell_filled.
Qed.

(** The outer loop over [i]. *)
Lemma outer_loop n :
  n ≤ blen →
  foldl (λ m i,
      foldl (λ m j,
        let cost :=
          if decide (charAt b (i - 1) = charAt a (j - 1)) then 0 else 1 in
        set_cell m i j
          (min3 (cell m (i - 1) j + 1) (cell m i (j - 1) + 1)
                (cell m (i - 1) (j - 1) + cost)))
        m (seq 1 alen))
    (filled a b 0 alen) (seq 1 n) = filled a b n alen.
Proof.
  induction n as [|n IH]; intros Hn.
  - reflexivity.
  - rewrite seq_S, foldl_snoc, IH by lia.
    change (1 + n) with (S n).
    rewrite filled_next by lia. apply inner_loop. lia.
Qed.

(** The function returns the last entry of the recurrence. *)
Lemma levenshteinDistance_dist :
  levenshteinDistance a b = dist a b blen alen.
Proof.
  unfold levenshteinDistance. cbv zeta.
  destruct (Nat.eqb_spec alen 0) as [Ha|Ha]; [by rewrite Ha, dist_0_r|].
  destruct (Nat.eqb_spec blen 0) as [Hb|Hb]; [by rewrite Hb|].
  rewrite init_filled. replace (alen + 1) with (S alen) by lia.
  rewrite first_row_loop, outer_loop by lia.
  apply cell_cur. lia.
Qed.

End Recurrence.

Lemma min3_comm12 x y z : min3 x y z = min3 y x z.
Proof. unfold min3. lia. Qed.

Lemma dist_sym a b i j : dist a b i j = dist b a j i.
Proof.
  revert j. induction i as [|i IHi]; intros j.
  - by rewrite dist_0_l, dist_0_r.
  - induction j as [|j IHj].
    + by rewrite dist_0_l, dist_0_r.
    + rewrite !dist_S_S, IHj, !IHi, min3_comm12.
      do 2 f_equal. repeat case_decide; congruence.
Qed.

Lemma dist_diag a n : dist a a n n = 0.
Proof.
  induction n as [|n IH]; [done|].
  rewrite dist_S_S, IH, decide_True by done. unfold min3. lia.
Qed.

Lemma dist_zero a b i j :
  dist a b i j = 0 → i = j ∧ ∀ k, k < i → charAt b k = charAt a k.
Proof.
  revert j. induction i as [|i IHi]; intros j.
  - rewrite dist_0_l. intros ->. split; [done|]. intros k Hk. lia.
  - destruct j as [|j]; [by rewrite dist_0_r|].
    rewrite dist_S_S. unfold min3. intros H.
    assert (dist a b i j = 0 ∧ charAt b i = charAt a j) as [H0 Hc].
    { case_decide; [split; [lia|done] | lia]. }
    apply IHi in H0 as [-> Hk]. split; [done|].
    intros k Hlt. destruct (decide (k = j)) as [->|]; [done|].
    apply Hk. lia.
Qed.

Lemma string_charAt_ext s t :
  String.length s = String.length t →
  (∀ k, k < String.length s → charAt s k = charAt t k) → s = t.
Proof.
  revert t. induction s as [|c s IH]; intros [|d t]; simpl; try done.
  intros Hlen Hget. injection Hlen as Hlen.
  assert (c = d) as ->.
  { specialize (Hget 0 ltac:(lia)). by injection Hget. }
  f_equal. apply IH; [done|].
  intros k Hk. apply (Hget (S k)). lia.
Qed.

Lemma levenshteinDistance_zero a b : levenshteinDistance a b = 0 → a = b.
Proof.
  rewrite levenshteinDistance_dist. intros [Hlen Hk]%dist_zero.
  symmetry. apply string_charAt_ext; done.
Qed.

Lemma levenshteinDistance_empty_l a :
  levenshteinDistance "" a = String.length a.
Proof. rewrite levenshteinDistance_dist. apply dist_0_r. Qed.

(** C9: for all strings [a] and [b], [levenshteinDistance(a, a)] is [0],
    [levenshteinDistance(a, "")] is the length of [a], and the distance is
    symmetric: [levenshteinDistance(a, b) = levenshteinDistance(b, a)]. *)
Theorem levenshteinDistance_identity_empty_symmetry (a b : string) :
  levenshteinDistance a a = 0
  ∧ levenshteinDistance a "" = String.length a
  ∧ levenshteinDistance a b = levenshteinDistance b a.
Proof.
  split; [|split].
  - rewrite levenshteinDistance_dist. apply dist_diag.
  - rewrite levenshteinDistance_dist. reflexivity.
  - rewrite !levenshteinDistance_dist. apply dist_sym.
Qed.

(** ** [Array.prototype.sort] with a key comparator *)

Section Sort.
Context {A : Type} (key : A → nat).

Lemma array_sort_insert_perm x (l : list A) :
  array_sort_insert (by_key key) x l ≡ₚ x :: l.
Proof.
  induction l as [|y l IH]; simpl; [done|].
  destruct (_ <=? _)%Z; [done|].
  rewrite IH. apply Permutation_swap.
Qed.

Lemma array_sort_perm (l : list A) : array_sort (by_key key) l ≡ₚ l.
Proof.
  induction l as [|x l IH]; simpl; [done|].
  rewrite array_sort_insert_perm. by f_equiv.
Qed.

Lemma array_sort_insert_sorted x (l : list A) :
  StronglySorted (λ x y, key x ≤ key y) l →
  StronglySorted (λ x y, key x ≤ key y) (array_sort_insert (by_key key) x l).
Proof.
  induction 1 as [|y l Hl IH Hy]; simpl.
  - repeat constructor.
  - unfold by_key at 1.
    destruct (Z.leb_spec (Z.of_nat (key x) - Z.of_nat (key y)) 0).
    + constructor; [by constructor|].
      constructor; [lia|]. eapply Forall_impl; [exact Hy|]. simpl. lia.
    + constructor; [done|].
      rewrite array_sort_insert_perm. constructor; [lia|done].
Qed.

Lemma array_sort_sorted (l : list A) :
  StronglySorted (λ x y, key x ≤ key y) (array_sort (by_key key) l).
Proof.
  induction l as [|x l IH]; simpl; [constructor|].
  by apply array_sort_insert_sorted.
Qed.

(** Stability: the elements of one key keep their order. *)
Lemma array_sort_insert_stable d x (l : list A) :
  List.filter (λ y, key y =? d) (array_sort_insert (by_key key) x l)
  = List.filter (λ y, key y =? d) (x :: l).
Proof.
  induction l as [|y l IH]; [done|].
  cbn [array_sort_insert]. unfold by_key at 1.
  destruct (Z.leb_spec (Z.of_nat (key x) - Z.of_nat (key y)) 0); [done|].
  cbn [List.filter] in *. rewrite IH.
  destruct (Nat.eqb_spec (key x) d), (Nat.eqb_spec (key y) d); try done. lia.
Qed.

Lemma array_sort_stable d (l : list A) :
  List.filter (λ y, key y =? d) (array_sort (by_key key) l)
  = List.filter (λ y, key y =? d) l.
Proof.
  induction l as [|x l IH]; [done|].
  cbn [array_sort foldr]. rewrite array_sort_insert_stable.
  cbn [List.filter]. fold (array_sort (by_key key) l). by rewrite IH.
Qed.

End Sort.

(** Sorting objects that carry their key, then dropping the key, is sorting
    by the key. *)
Lemma array_sort_fmap {A B : Type} (f : A → B) (key : B → nat) (l : list A) :
  f <$> array_sort (by_key (key ∘ f)) l = array_sort (by_key key) (f <$> l).
Proof.
  induction l as [|x l IH]; [done|].
  cbn [array_sort foldr fmap list_fmap].
  fold (array_sort (by_key (key ∘ f)) l).
  change (foldr (array_sort_insert (by_key key)) [] (f <$> l))
    with (array_sort (by_key key) (f <$> l)).
  rewrite <- IH. generalize (array_sort (by_key (key ∘ f)) l). intros s.
  induction s as [|y s IHs]; [done|].
  cbn [array_sort_insert fmap list_fmap]. unfold by_key at 1 3. simpl.
  destruct (_ <=? _)%Z; [done|]. cbn [fmap list_fmap]. f_equal. apply IHs.
Qed.

(** ** Validation *)

Lemma validateNonEmptyString_ok value fieldName :
  trim value ≠ "" → validateNonEmptyString value fieldName = Ok tt.
Proof.
  intros H. unfold validateNonEmptyString, strictEq.
  by rewrite bool_decide_eq_false_2.
Qed.

Lemma validateNonEmptyString_inv value fieldName :
  validateNonEmptyString value fieldName = Ok tt → trim value ≠ "".
Proof.
  unfold validateNonEmptyString, strictEq. case_bool_decide; done.
Qed.

Lemma validateNonNegativeNumber_ok value fieldName :
  JsNumber.lt value JsNumber.zero = false →
  validateNonNegativeNumber value fieldName = Ok tt.
Proof. intros H. unfold validateNonNegativeNumber. simpl. by rewrite H. Qed.

(** ** String containment *)

Lemma prefix_refl s : String.prefix s s = true.
Proof.
  induction s as [|c s IH]; [done|]. simpl.
  destruct (Ascii.ascii_dec c c); done.
Qed.

Lemma includes_refl s : includes s s = true.
Proof.
  destruct s as [|c s]; [done|]. cbn [includes]. by rewrite prefix_refl.
Qed.

(** ** Numbers *)

Lemma le_of_nat_zero n :
  JsNumber.le (JsNumber.of_nat n) JsNumber.zero = true → n = 0.
Proof.
  unfold JsNumber.le, JsNumber.zero, JsNumber.of_nat.
  rewrite Qle_bool_iff, <- Zle_Qle. lia.
Qed.

(** ** [fuzzySearchBreeds] *)

Section FuzzySearch.
Variable dogBreeds : list DogBreedData.

(** Once the two validations pass, the result is the substring pass followed
    by the fuzzy pass sorted on the distance. *)
Lemma fuzzySearchBreeds_eq searchTerm maxDistance :
  trim searchTerm ≠ "" →
  JsNumber.lt maxDistance JsNumber.zero = false →
  fuzzySearchBreeds dogBreeds searchTerm maxDistance
  = Ok (List.filter (substringMatch searchTerm) dogBreeds
        ++ array_sort (by_key (editDistance searchTerm))
             (List.filter (fuzzyMatch searchTerm maxDistance) dogBreeds))%list.
Proof.
  intros Hterm Hmax. unfold fuzzySearchBreeds.
  rewrite validateNonEmptyString_ok, validateNonNegativeNumber_ok by done.
  cbn [bind]. do 2 f_equal.
  set (mk := λ dog, {| dog := dog; _matchScore := _ |}).
  change (λ a b : Scored,
            (Z.of_nat (_matchScore a) - Z.of_nat (_matchScore b))%Z)
    with (by_key _matchScore).
  rewrite <- (array_sort_fmap mk _matchScore).
  rewrite <- list_fmap_compose.
  change (dog ∘ mk) with (@id DogBreedData). rewrite list_fmap_id.
  f_equal. apply filter_ext. intros dog.
  unfold fuzzyMatch, substringMatch, containsEither.
  by destruct (_ || _).
Qed.

Lemma fuzzyMatch_not_substring searchTerm maxDistance dog :
  fuzzyMatch searchTerm maxDistance dog = true →
  substringMatch searchTerm dog = false.
Proof. unfold fuzzyMatch. by destruct (substringMatch searchTerm dog). Qed.

(** C1: for a search term that is not blank and a [maxDistance] the
    validation accepts (every non-negative number), the result of
    [fuzzySearchBreeds] is first every breed of the catalog whose normalized
    name contains, or is contained in, the normalized term, in catalog
    order; then the breeds outside that group whose edit distance to the
    term is at most [maxDistance], sorted by non-decreasing distance, breeds
    at one distance keeping their catalog order; and a substring match never
    comes after a breed that is not one. *)
Theorem fuzzySearchBreeds_partition
  (searchTerm : string) (maxDistance : JsNum) :
  trim searchTerm ≠ "" →
  JsNumber.lt maxDistance JsNumber.zero = false →
  ∃ fuzzy : list DogBreedData,
    let substring := List.filter (substringMatch searchTerm) dogBreeds in
    let candidates :=
      List.filter (fuzzyMatch searchTerm maxDistance) dogBreeds in
    fuzzySearchBreeds dogBreeds searchTerm maxDistance
    = Ok (substring ++ fuzzy)%list
    ∧ fuzzy ≡ₚ candidates
    ∧ StronglySorted
        (λ x y, editDistance searchTerm x ≤ editDistance searchTerm y) fuzzy
    ∧ (∀ d, List.filter (λ dog, editDistance searchTerm dog =? d) fuzzy
            = List.filter (λ dog, editDistance searchTerm dog =? d) candidates)
    ∧ (∀ i j x y,
         (substring ++ fuzzy)%list !! i = Some x →
         (substring ++ fuzzy)%list !! j = Some y →
         substringMatch searchTerm x = true →
         substringMatch searchTerm y = false →
         i < j).
Proof.
  intros Hterm Hmax.
  exists (array_sort (by_key (editDistance searchTerm))
            (List.filter (fuzzyMatch searchTerm maxDistance) dogBreeds)).
  cbv zeta. split; [by apply fuzzySearchBreeds_eq|].
  split; [apply array_sort_perm|].
  split; [apply array_sort_sorted|].
  split; [intros d; apply array_sort_stable|].
  intros i j x y Hi Hj Hx Hy.
  apply lookup_app_Some in Hi as [Hi|[Hlen Hi]].
  - apply lookup_lt_Some in Hi.
    apply lookup_app_Some in Hj as [Hj|[Hlen _]]; [|lia].
    apply list_elem_of_lookup_2, list_elem_of_In, filter_In in Hj as [_ Hj].
    congruence.
  - apply list_elem_of_lookup_2 in Hi. rewrite array_sort_perm in Hi.
    apply list_elem_of_In, filter_In in Hi as [_ Hi].
    apply fuzzyMatch_not_substring in Hi. congruence.
Qed.

(** With [maxDistance] zero the fuzzy pass keeps nothing: distance zero
    means equal strings, and a string contains itself. *)
Lemma fuzzyMatch_zero searchTerm dog :
  fuzzyMatch searchTerm JsNumber.zero dog = false.
Proof.
  unfold fuzzyMatch.
  destruct (substringMatch searchTerm dog) eqn:Hsub; [done|]. simpl.
  apply not_true_is_false. intros Hle%le_of_nat_zero.
  apply levenshteinDistance_zero in Hle.
  unfold substringMatch, containsEither in Hsub.
  rewrite Hle, includes_refl in Hsub. done.
Qed.

(** C6: for a search term that is not blank, [fuzzySearchBreeds(term, 0)]
    returns exactly the substring pass, so every breed of the result has its
    normalized name and the normalized term in bidirectional containment. *)
Theorem fuzzySearchBreeds_zero_only_substring (searchTerm : string) :
  trim searchTerm ≠ "" →
  fuzzySearchBreeds dogBreeds searchTerm JsNumber.zero
  = Ok (List.filter (substringMatch searchTerm) dogBreeds)
  ∧ Forall (λ dog,
      let dogName := normalizeBreed (name dog) in
      let normalized := normalizeBreed searchTerm in
      includes dogName normalized || includes normalized dogName = true)
      (List.filter (substringMatch searchTerm) dogBreeds).
Proof.
  intros Hterm. split.
  - rewrite fuzzySearchBreeds_eq by done.
    rewrite (filter_ext (fuzzyMatch searchTerm JsNumber.zero) (λ _, false))
      by apply fuzzyMatch_zero.
    assert (∀ l : list DogBreedData, List.filter (λ _, false) l = []) as ->.
    { induction l; simpl; done. }
    by rewrite app_nil_r.
  - apply Forall_forall. intros dog Hdog.
    apply list_elem_of_In, filter_In in Hdog as [_ Hdog]. exact Hdog.
Qed.

End FuzzySearch.

(** ** [findBreed] and the lookups built on it *)

Lemma array_find_Some {A : Type} (callback : A → Result bool) l x :
  array_find callback l = Ok (Some x) → In x l ∧ callback x = Ok true.
Proof.
  induction l as [|y l IH]; simpl; [done|].
  destruct (callback y) as [[]|] eqn:Hy; simpl; [|auto with *|done].
  - intros [= ->]. auto.
  - intros [? ?]%IH. auto.
Qed.

Lemma array_find_total {A : Type} (callback : A → Result bool) l :
  (∀ x, ∃ found, callback x = Ok found) →
  ∃ r, array_find callback l = Ok r.
Proof.
  intros Hcb. induction l as [|y l IH]; simpl; [eauto|].
  destruct (Hcb y) as [[] ->]; simpl; eauto.
Qed.

Section Lookup.
Variable dogBreeds : list DogBreedData.

(** A strict lookup answers only with a breed of the catalog whose compared
    name normalizes to the normalized query. *)
Lemma findBreed_exact breed language found :
  findBreed dogBreeds breed {| fuzzy := Some false; lang := language |}
  = Ok (Some found) →
  In found dogBreeds
  ∧ normalizeBreed (comparisonName (default "en" language) found)
    = normalizeBreed breed.
Proof.
  unfold findBreed. intros [Hin Hcb]%array_find_Some. split; [done|].
  cbn [fuzzy lang default] in Hcb.
  revert Hcb. unfold comparisonName, getProperty.
  destruct (names found) as [dog_names|]; cbn [mbind option_bind].
  - destruct (dog_names !! default "en" language) as [[|c alt]|].
    + unfold strictEq. intros [= ?%bool_decide_eq_true]. done.
    + unfold strictEq. intros [= ?%bool_decide_eq_true]. done.
    + case_bool_decide; [done|].
      unfold strictEq. intros [= ?%bool_decide_eq_true]. done.
  - unfold strictEq. intros [= ?%bool_decide_eq_true]. done.
Qed.

Lemma getDogBreedData_inv breed options found :
  getDogBreedData dogBreeds breed options = Ok found →
  trim breed ≠ "" ∧ findBreed dogBreeds breed options = Ok found.
Proof.
  unfold getDogBreedData.
  destruct (validateNonEmptyString breed "Breed name") as [[]|] eqn:Hv;
    [|done].
  apply validateNonEmptyString_inv in Hv. done.
Qed.

(** C5, as the code has it: for every query and every language tag, when a
    lookup with [fuzzy: false] returns a breed ([getDogBreedData], that is
    [findBreed] behind the non-empty check), it is a breed of the catalog,
    and the normalized query equals the normal form of the name the code
    compares by: the breed's own alternate name for the language when that
    is a non-empty string, for every language tag, ["en"] too, and its
    [name] otherwise.  So it equals the normal form of the comparison name
    of the specification when the language is not ["en"] (an empty
    alternate name apart), and when the language is ["en"] and the breed
    has no alternate English name or an empty one. *)
Theorem exact_lookup_equal_normalized_names
  (breed : string) (language : option string) (found : DogBreedData) :
  getDogBreedData dogBreeds breed {| fuzzy := Some false; lang := language |}
  = Ok (Some found) →
  trim breed ≠ ""
  ∧ findBreed dogBreeds breed {| fuzzy := Some false; lang := language |}
    = Ok (Some found)
  ∧ In found dogBreeds
  ∧ (∀ alt,
       names found ≫= (.!! default "en" language) = Some alt →
       alt ≠ "" →
       normalizeBreed alt = normalizeBreed breed)
  ∧ (names found ≫= (.!! default "en" language) = None
     ∨ names found ≫= (.!! default "en" language) = Some "" →
     normalizeBreed (name found) = normalizeBreed breed)
  ∧ (default "en" language ≠ "en" →
     names found ≫= (.!! default "en" language) ≠ Some "" →
     normalizeBreed (specComparisonName (default "en" language) found)
     = normalizeBreed breed)
  ∧ (default "en" language = "en" →
     names found ≫= (.!! "en") = None
     ∨ names found ≫= (.!! "en") = Some "" →
     normalizeBreed (specComparisonName (default "en" language) found)
     = normalizeBreed breed).
Proof.
  intros [Hne Hfind]%getDogBreedData_inv.
  split; [done|]. split; [done|].
  apply findBreed_exact in Hfind as [Hin Hname].
  split; [done|].
  unfold comparisonName in Hname. unfold specComparisonName.
  destruct (names found ≫= (.!! default "en" language)) as [[|c alt]|]
    eqn:Halt.
  - split; [by intros alt [= <-]|]. split; [done|]. split; [done|].
    intros ->. by rewrite bool_decide_eq_false_2 by (by intros []).
  - split; [by intros alt' [= <-]|]. split; [by intros [|]|].
    split.
    + intros Hlang _. by rewrite bool_decide_eq_true_2.
    + intros Hlang. rewrite Hlang in Halt. rewrite Halt. by intros [|].
  - split; [done|]. split; [done|]. split.
    + intros Hlang _. by rewrite bool_decide_eq_true_2.
    + intros ->. by rewrite bool_decide_eq_false_2 by (by intros []).
Qed.

(** When the breed has no alternate name for the language, the name that
    was compared is its [name]. *)
Lemma exact_lookup_without_alternate_name breed language found :
  findBreed dogBreeds breed {| fuzzy := Some false; lang := language |}
  = Ok (Some found) →
  names found ≫= (.!! default "en" language) = None →
  normalizeBreed (name found) = normalizeBreed breed.
Proof.
  intros [_ Hname]%findBreed_exact Hnone.
  unfold comparisonName in Hname. by rewrite Hnone in Hname.
Qed.

(** The same for the two other entry points. *)
Lemma isValidDogBreed_exact breed language :
  isValidDogBreed dogBreeds breed {| fuzzy := Some false; lang := language |}
  = Ok true →
  ∃ found,
    In found dogBreeds
    ∧ normalizeBreed (comparisonName (default "en" language) found)
      = normalizeBreed breed.
Proof.
  unfold isValidDogBreed.
  destruct (validateNonEmptyString breed "Breed name") as [[]|]; [|done].
  cbn [bind].
  destruct (findBreed _ _ _) as [[found|]|] eqn:Hfind; cbn [bind]; try done.
  intros _. exists found. by apply findBreed_exact.
Qed.

Lemma getDogBreedOrigin_exact breed language country :
  getDogBreedOrigin dogBreeds breed {| fuzzy := Some false; lang := language |}
  = Ok (Some country) →
  ∃ found,
    In found dogBreeds ∧ origin found = country
    ∧ normalizeBreed (comparisonName (default "en" language) found)
      = normalizeBreed breed.
Proof.
  unfold getDogBreedOrigin.
  destruct (validateNonEmptyString breed "Breed name") as [[]|]; [|done].
  cbn [bind].
  destruct (findBreed _ _ _) as [[found|]|] eqn:Hfind; cbn [bind]; try done.
  destruct (strictEq (origin found) ""); [done|]. intros [= <-].
  apply findBreed_exact in Hfind as [Hin Hname]. by exists found.
Qed.

(** With the default language no name is read off the prototype, so the
    lookup cannot throw. *)
Lemma findBreed_default_lang breed fuzzy_option :
  ∃ found,
    findBreed dogBreeds breed {| fuzzy := fuzzy_option; lang := None |}
    = Ok found.
Proof.
  unfold findBreed. apply array_find_total. intros dog.
  cbn [lang default]. unfold getProperty.
  destruct (names dog) as [dog_names|].
  - destruct (dog_names !! "en") as [[|c alt]|]; cbn;
      destruct (default true _); eauto.
  - destruct (default true _); eauto.
Qed.

(** C4, as the code has it.  When the first query passes the non-empty check
    and resolves to no breed, and the second query is not blank,
    [compareBreeds] throws the plain [Error] that names the first query,
    whatever the second resolves to, and no [NonEmptyStringError].  When the
    first query is not blank and the second is blank, it throws the
    [NonEmptyStringError] for ['Breed 2'], whatever the first resolves
    to. *)
Theorem compareBreeds_first_not_found (breed1 breed2 : string) :
  (getDogBreedData dogBreeds breed1 {| fuzzy := Some true; lang := None |}
   = Ok None →
   trim breed2 ≠ "" →
   compareBreeds dogBreeds breed1 breed2
   = Throw (Error (not_found_message breed1))
   ∧ ∀ fieldName,
       compareBreeds dogBreeds breed1 breed2
       ≠ Throw (NonEmptyStringError fieldName))
  ∧ (trim breed1 ≠ "" →
     trim breed2 = "" →
     compareBreeds dogBreeds breed1 breed2
     = Throw (NonEmptyStringError "Breed 2")).
Proof.
  split.
  - intros Hfirst Hsecond.
    assert (compareBreeds dogBreeds breed1 breed2
            = Throw (Error (not_found_message breed1))) as ->; [|done].
    unfold compareBreeds.
    destruct (getDogBreedData_inv _ _ _ Hfirst) as [Hne _].
    rewrite !validateNonEmptyString_ok by done. cbn [bind].
    rewrite Hfirst. cbn [bind].
    unfold getDogBreedData. rewrite validateNonEmptyString_ok by done.
    cbn [bind].
    destruct (findBreed_default_lang breed2 (Some true)) as [found ->].
    done.
  - intros Hfirst Hsecond. unfold compareBreeds.
    rewrite validateNonEmptyString_ok by done. cbn [bind].
    unfold validateNonEmptyString, strictEq.
    by rewrite Hsecond.
Qed.
End Lookup.

(** ** Comparisons of numbers *)

Ltac q_reflect :=
  repeat match goal with
  | H : Qle_bool _ _ = true |- _ => apply Qle_bool_iff in H
  | H : Qle_bool _ _ = false |- _ =>
      apply not_true_iff_false in H; rewrite Qle_bool_iff in H;
      apply Qnot_le_lt in H
  end.

Ltac q_cases :=
  repeat (unfold JsNumber.Qlt_bool;
          match goal with
          | |- context [Qle_bool ?p ?q] =>
              destruct (Qle_bool p q) eqn:?; simpl
          end);
  q_reflect; try done; try (exfalso; lra).

(** [Math.min] and [Math.max] of the two bounds compare alike with any
    number, whichever bound comes first. *)
Lemma lt_min_swap x a b :
  JsNumber.lt x (JsNumber.min a b) = JsNumber.lt x (JsNumber.min b a).
Proof. destruct a, b, x; simpl; try done; q_cases. Qed.

Lemma max_lt_swap x a b :
  JsNumber.lt (JsNumber.max a b) x = JsNumber.lt (JsNumber.max b a) x.
Proof. destruct a, b, x; simpl; try done; q_cases. Qed.

Lemma gt_zero_zero : JsNumber.gt JsNumber.zero JsNumber.zero = false.
Proof. reflexivity. Qed.

(** ** [validateUnit] *)

Lemma UNIT_ALIASES_disjoint s :
  s ∈ UNIT_ALIASES_kgs → s ∈ UNIT_ALIASES_lbs → False.
Proof.
  unfold UNIT_ALIASES_kgs, UNIT_ALIASES_lbs. set_unfold.
  intros Hk Hl. destruct_or!; subst; simplify_eq.
Qed.

Lemma validateUnit_alias unit unit' :
  sameUnitAlias unit unit' → validateUnit unit = validateUnit unit'.
Proof.
  unfold sameUnitAlias, validateUnit. cbv zeta.
  intros [[H H']|[H H']].
  - by rewrite !bool_decide_eq_true_2.
  - rewrite !(bool_decide_eq_false_2 (_ ∈ UNIT_ALIASES_kgs))
      by (intros ?; by eapply UNIT_ALIASES_disjoint).
    by rewrite !bool_decide_eq_true_2.
Qed.

(** ** [getDogsByWeightRange] *)

Section WeightRange.
Variable dogBreeds : list DogBreedData.

(** C7: for all numbers [min] and [max], [getDogsByWeightRange] gives the
    same result with the two bounds swapped, and the same result for two
    unit strings that are aliases of one unit (["kg"] and ["kilograms"]). *)
Theorem getDogsByWeightRange_swap_and_alias
  (min max : JsNum) (unit unit' : option string) :
  getDogsByWeightRange dogBreeds min max unit
  = getDogsByWeightRange dogBreeds max min unit
  ∧ (sameUnitAlias unit unit' →
     getDogsByWeightRange dogBreeds min max unit
     = getDogsByWeightRange dogBreeds min max unit').
Proof.
  split.
  - unfold getDogsByWeightRange.
    cbn [validateNumberRange validateNumber bind].
    destruct (validateUnit unit) as [normalizedUnit|]; [|done]. cbn [bind].
    f_equal. apply filter_ext. intros dog.
    destruct (weight dog) as [w|]; [|done].
    destruct (if strictEq normalizedUnit "kgs" then kgs w else lbs w);
      [|done].
    unfold JsNumber.gt. by rewrite lt_min_swap, max_lt_swap.
  - intros Halias. unfold getDogsByWeightRange.
    by rewrite (validateUnit_alias unit unit').
Qed.

End WeightRange.

(** ** [getRecommendedBreeds] *)

Lemma unit_selection unit :
  strictEq match unit with
           | Some "" | None => "lbs"
           | Some unit => unit
           end "kgs"
  = bool_decide (unit = Some "kgs").
Proof.
  unfold strictEq. destruct unit as [[|c u]|]; try done.
  apply bool_decide_ext. split; congruence.
Qed.

Lemma mismatchBool_false pref field :
  mismatchBool pref field = false ↔ agrees pref field.
Proof.
  unfold mismatchBool, agrees. destruct pref as [wanted|].
  - rewrite negb_false_iff, bool_decide_eq_true. split.
    + by intros -> ? [= ->].
    + auto.
  - split; [by intros _ ? [=]|done].
Qed.

Ltac case_mismatch :=
  repeat match goal with
  | |- context [mismatch ?p ?f] =>
      destruct (mismatch p f); [by split; [|intros []]|]
  end.

(** The weight criterion, read off a breed that passes the filter. *)
Lemma recommended_weightRange preferences weightRange dog :
  Pref.weightRange preferences = Some weightRange →
  recommended preferences dog = true →
  ∃ dog_weight weightData,
    weight dog = Some dog_weight
    ∧ requestedWeight (Pref.unit weightRange) dog_weight = Some weightData
    ∧ JsNumber.lt (MinMax.max weightData) (Pref.min weightRange) = false
    ∧ JsNumber.gt (MinMax.min weightData) (Pref.max weightRange) = false.
Proof.
  intros Hw. unfold recommended. rewrite Hw.
  repeat match goal with
  | |- context [mismatch ?p ?f] => destruct (mismatch p f); [done|]
  end.
  destruct (match Pref.compatibility preferences with
            | Some _ => _ | None => _ end); [done|].
  destruct (weight dog) as [dog_weight|]; [|done].
  rewrite unit_selection. unfold requestedWeight.
  destruct (if bool_decide _ then _ else _) as [weightData|] eqn:Hdata;
    [|done].
  rewrite negb_involutive.
  destruct (_ || _) eqn:Hrange; [done|]. intros _.
  apply orb_false_elim in Hrange as [? ?]. eauto 10.
Qed.

(** The filter is the filter without the compatibility criterion, and the
    compatibility criterion. *)
Lemma recommended_compatibility preferences dog :
  recommended preferences dog = true ↔
  recommended (without_compatibility preferences) dog = true
  ∧ match Pref.compatibility preferences with
    | None => True
    | Some pref_compatibility =>
        ∃ dog_compatibility,
          compatibility dog = Some dog_compatibility
          ∧ agrees (children pref_compatibility) (children dog_compatibility)
          ∧ agrees (otherDogs pref_compatibility)
                   (otherDogs dog_compatibility)
          ∧ agrees (cats pref_compatibility) (cats dog_compatibility)
    end.
Proof.
  unfold recommended, without_compatibility.
  cbn [Pref.size Pref.energyLevel Pref.trainability Pref.shedding
       Pref.groomingNeeds Pref.origin Pref.compatibility Pref.weightRange
       Pref.minLifespan].
  case_mismatch.
  match goal with
  | |- context [if _ then false else ?rest] => generalize rest
  end.
  intros rest.
  destruct (Pref.compatibility preferences) as [pc|];
    [|by split; [|intros []]].
  destruct (compatibility dog) as [dc|]; [|by split; [|intros [_ [? [? _]]]]].
  destruct (_ || _) eqn:Hc.
  - split; [done|]. intros (_ & dc' & [= <-] & H1 & H2 & H3).
    apply mismatchBool_false in H1, H2, H3. by rewrite H1, H2, H3 in Hc.
  - apply orb_false_elim in Hc as [[H1 H2]%orb_false_elim H3].
    apply mismatchBool_false in H1, H2, H3.
    split; [|by intros []]. intros ->. split; [done|]. by exists dc.
Qed.

(** The filter with a positive [minLifespan] is the filter without it, and
    the lifespan criterion. *)
Lemma recommended_minLifespan preferences minLifespan dog :
  Pref.minLifespan preferences = Some minLifespan →
  JsNumber.gt minLifespan JsNumber.zero = true →
  recommended preferences dog = true ↔
  recommended (without_minLifespan preferences) dog = true
  ∧ ∃ dog_lifespan,
      lifespan dog = Some dog_lifespan ∧ dog_lifespan ≠ ""
      ∧ ∀ avgLifespan,
          parseLifespanAverage (Some dog_lifespan) = Some avgLifespan →
          JsNumber.lt avgLifespan minLifespan = false.
Proof.
  intros Hpref Hpos. unfold recommended, without_minLifespan.
  cbn [Pref.size Pref.energyLevel Pref.trainability Pref.shedding
       Pref.groomingNeeds Pref.origin Pref.compatibility Pref.weightRange
       Pref.minLifespan].
  cbv zeta. rewrite Hpref. cbn [default from_option id].
  rewrite Hpos, gt_zero_zero. cbn [andb].
  case_mismatch.
  destruct (match Pref.compatibility preferences with
            | Some _ => _ | None => _ end); [by split; [|intros []]|].
  destruct (match Pref.weightRange preferences with
            | Some _ => _ | None => _ end); [by split; [|intros []]|].
  destruct (lifespan dog) as [[|c s]|].
  - split; [done|]. by intros [_ (? & [= <-] & ? & _)].
  - destruct (parseLifespanAverage _) as [avg|] eqn:Hparse.
    + destruct (JsNumber.lt avg minLifespan) eqn:Hlt.
      * split; [done|]. intros [_ (? & [= <-] & _ & H)].
        specialize (H avg Hparse). congruence.
      * split; [|done]. intros _. split; [done|].
        eexists. split; [done|]. split; [done|].
        rewrite Hparse. by intros ? [= <-].
    + split; [|done]. intros _. split; [done|].
      eexists. split; [done|]. split; [done|]. by rewrite Hparse.
  - split; [done|]. by intros [_ (? & [=] & _)].
Qed.

Section Recommend.
Variable dogBreeds : list DogBreedData.

Lemma getRecommendedBreeds_In preferences dog :
  In dog (getRecommendedBreeds dogBreeds preferences)
  ↔ In dog dogBreeds ∧ recommended preferences dog = true.
Proof. apply filter_In. Qed.

(** C3: when the preferences carry a [weightRange], every breed that
    [getRecommendedBreeds] returns has weight data, has the entry of the
    requested unit (the kilograms for the unit ["kgs"] and nothing else, the
    pounds otherwise: no alias is expanded), and that entry overlaps
    [[min, max]] inclusively with [min] and [max] taken as they were given.
    So a breed without weight data, or without the entry of the requested
    unit, is excluded. *)
Theorem getRecommendedBreeds_weightRange
  (preferences : Pref.t) (weightRange : Pref.WeightRange)
  (dog : DogBreedData) :
  Pref.weightRange preferences = Some weightRange →
  In dog (getRecommendedBreeds dogBreeds preferences) →
  ∃ dog_weight weightData,
    weight dog = Some dog_weight
    ∧ (Pref.unit weightRange = Some "kgs" →
       kgs dog_weight = Some weightData)
    ∧ (Pref.unit weightRange ≠ Some "kgs" →
       lbs dog_weight = Some weightData)
    ∧ JsNumber.lt (MinMax.max weightData) (Pref.min weightRange) = false
    ∧ JsNumber.gt (MinMax.min weightData) (Pref.max weightRange) = false.
Proof.
  intros Hw [_ Hdog]%getRecommendedBreeds_In.
  destruct (recommended_weightRange _ _ _ Hw Hdog)
    as (dog_weight & weightData & Hweight & Hdata & Hmin & Hmax).
  exists dog_weight, weightData. unfold requestedWeight in Hdata.
  split; [done|]. split; [|split; [|done]].
  - intros Hunit. by rewrite bool_decide_eq_true_2 in Hdata.
  - intros Hunit. by rewrite bool_decide_eq_false_2 in Hdata.
Qed.

(** C8, as the code has it: a breed without a [compatibility] object is
    returned exactly when the preferences carry no [compatibility] object
    and it passes the other criteria, so it is excluded by any
    [compatibility] object, also one that sets none of the three keys; a
    breed with one is returned exactly when each key the preferences set to
    a boolean has that value in the breed and it passes the other criteria;
    without a [compatibility] object in the preferences the result is the
    one of the other criteria. *)
Theorem getRecommendedBreeds_compatibility
  (preferences : Pref.t) (dog : DogBreedData) :
  (compatibility dog = None →
   (In dog (getRecommendedBreeds dogBreeds preferences)
    ↔ Pref.compatibility preferences = None
      ∧ In dog (getRecommendedBreeds dogBreeds
                  (without_compatibility preferences))))
  ∧ (∀ pref_compatibility dog_compatibility,
       Pref.compatibility preferences = Some pref_compatibility →
       compatibility dog = Some dog_compatibility →
       (In dog (getRecommendedBreeds dogBreeds preferences)
        ↔ agrees (children pref_compatibility) (children dog_compatibility)
          ∧ agrees (otherDogs pref_compatibility)
                   (otherDogs dog_compatibility)
          ∧ agrees (cats pref_compatibility) (cats dog_compatibility)
          ∧ In dog (getRecommendedBreeds dogBreeds
                      (without_compatibility preferences))))
  ∧ (Pref.compatibility preferences = None →
     getRecommendedBreeds dogBreeds preferences
     = getRecommendedBreeds dogBreeds (without_compatibility preferences)).
Proof.
  split; [|split].
  - intros Hdog. rewrite !getRecommendedBreeds_In, recommended_compatibility.
    destruct (Pref.compatibility preferences) as [pc|].
    + split; [|by intros [[=] _]].
      intros (_ & _ & dc & Hdc & _). congruence.
    + tauto.
  - intros pc dc Hpc Hdc.
    rewrite !getRecommendedBreeds_In, recommended_compatibility, Hpc.
    split.
    + intros (Hin & Hrest & dc' & Hdc' & H1 & H2 & H3).
      assert (dc' = dc) as -> by congruence. done.
    + intros (H1 & H2 & H3 & Hin & Hrest). eauto 10.
  - intros Hnone. destruct preferences. simpl in Hnone. by subst.
Qed.

(** C2, as the code has it: when the preferences carry a positive
    [minLifespan], [getRecommendedBreeds] excludes every breed whose
    lifespan parses to an average below it, and every breed that has no
    lifespan string or an empty one; a breed whose lifespan is a non-empty
    string that does not parse is returned exactly when it passes the other
    criteria.  The average is the number the code computes: each bound is
    the double nearest to its digits, and so are their sum and its half.
    The lifespan is a [string], with code units up to U+00FF: the en and em
    dash, which the code reads as the hyphen between two bounds, do not
    occur in it. *)
Theorem getRecommendedBreeds_minLifespan
  (preferences : Pref.t) (minLifespan : JsNum) (dog : DogBreedData) :
  Pref.minLifespan preferences = Some minLifespan →
  JsNumber.gt minLifespan JsNumber.zero = true →
  (∀ avgLifespan,
     parseLifespanAverage (lifespan dog) = Some avgLifespan →
     JsNumber.lt avgLifespan minLifespan = true →
     ¬ In dog (getRecommendedBreeds dogBreeds preferences))
  ∧ (lifespan dog = None ∨ lifespan dog = Some "" →
     ¬ In dog (getRecommendedBreeds dogBreeds preferences))
  ∧ (∀ dog_lifespan,
       lifespan dog = Some dog_lifespan →
       dog_lifespan ≠ "" →
       parseLifespanAverage (Some dog_lifespan) = None →
       (In dog (getRecommendedBreeds dogBreeds preferences)
        ↔ In dog (getRecommendedBreeds dogBreeds
                    (without_minLifespan preferences)))).
Proof.
  intros Hpref Hpos. split; [|split].
  - intros avg Hparse Hlt [_ Hdog]%getRecommendedBreeds_In.
    apply (recommended_minLifespan _ _ _ Hpref Hpos) in Hdog
      as (_ & s & Hs & _ & Havg).
    rewrite Hs in Hparse. apply Havg in Hparse. congruence.
  - intros Hnone [_ Hdog]%getRecommendedBreeds_In.
    apply (recommended_minLifespan _ _ _ Hpref Hpos) in Hdog
      as (_ & s & Hs & Hne & _).
    destruct Hnone; congruence.
  - intros s Hs Hne Hparse.
    rewrite !getRecommendedBreeds_In,
      (recommended_minLifespan _ _ _ Hpref Hpos).
    split; [tauto|]. intros [Hin Hrest]. split; [done|]. split; [done|].
    exists s. split; [done|]. split; [done|]. intros avg. by rewrite Hparse.
Qed.

End Recommend.

(** ** The statements on the small catalog *)

Section OnSample.
Import Sample.

Lemma fuzzySearchBreeds_partition_witness :
  ∃ fuzzy,
    fuzzySearchBreeds dogBreeds "daschund" (number 3)
    = Ok (List.filter (substringMatch "daschund") dogBreeds ++ fuzzy)%list
    ∧ fuzzy ≡ₚ List.filter (fuzzyMatch "daschund" (number 3)) dogBreeds.
Proof.
  destruct (fuzzySearchBreeds_partition dogBreeds "daschund" (number 3))
    as (fuzzy & Hresult & Hperm & _).
  - vm_compute. discriminate.
  - reflexivity.
  - exists fuzzy. split; [exact Hresult | exact Hperm].
Defined.

Lemma fuzzySearchBreeds_zero_only_substring_witness :
  fuzzySearchBreeds dogBreeds "Retriever" JsNumber.zero
  = Ok (List.filter (substringMatch "Retriever") dogBreeds).
Proof.
  apply (fuzzySearchBreeds_zero_only_substring dogBreeds "Retriever").
  vm_compute. discriminate.
Defined.

Lemma exact_lookup_equal_normalized_names_witness :
  normalizeBreed "Dackel" = normalizeBreed "  DACKEL "
  ∧ normalizeBreed (specComparisonName "de" dachshund)
    = normalizeBreed "  DACKEL ".
Proof.
  destruct (exact_lookup_equal_normalized_names dogBreeds "  DACKEL "
              (Some "de") dachshund)
    as (_ & _ & _ & Halt & _ & Hspec & _).
  - vm_compute. reflexivity.
  - split.
    + apply Halt; [vm_compute; reflexivity | discriminate].
    + apply Hspec; [discriminate | vm_compute; discriminate].
Defined.

(** C5 as stated fails.  A breed found by its alternate name has a
    normalized [name] that differs from the normalized query; and with the
    default language ["en"] the code still compares by the alternate English
    name, where the comparison name of the specification is the [name]. *)
Lemma exact_lookup_by_english_alternate_name :
  getDogBreedData [shepherd] "Alsatian" (exact None) = Ok (Some shepherd)
  ∧ normalizeBreed (name shepherd) ≠ normalizeBreed "Alsatian"
  ∧ normalizeBreed (specComparisonName "en" shepherd)
    ≠ normalizeBreed "Alsatian"
  ∧ getDogBreedData dogBreeds "Dackel" (exact (Some "de"))
    = Ok (Some dachshund)
  ∧ normalizeBreed (name dachshund) ≠ normalizeBreed "Dackel".
Proof.
  repeat split; vm_compute; (reflexivity || discriminate).
Qed.

(** With an alternate name for the language it is that name, not [name],
    that equals the query. *)
Example exact_lookup_by_alternate_name :
  findBreed dogBreeds "Dackel" (exact (Some "de")) = Ok (Some dachshund)
  ∧ findBreed dogBreeds "Dackel" (exact None) = Ok None
  ∧ normalizeBreed (name dachshund) ≠ normalizeBreed "Dackel".
Proof. split; [|split]; vm_compute; [reflexivity|reflexivity|discriminate]. Qed.

Lemma compareBreeds_first_not_found_witness :
  compareBreeds dogBreeds "Unicorn Hound" "Golden Retriever"
  = Throw (Error (not_found_message "Unicorn Hound"))
  ∧ compareBreeds dogBreeds "Golden Retriever" "   "
    = Throw (NonEmptyStringError "Breed 2").
Proof.
  split.
  - apply (proj1 (compareBreeds_first_not_found dogBreeds "Unicorn Hound"
                    "Golden Retriever")).
    + vm_compute. reflexivity.
    + vm_compute. discriminate.
  - apply (proj2 (compareBreeds_first_not_found dogBreeds "Golden Retriever"
                    "   ")).
    + vm_compute. discriminate.
    + vm_compute. reflexivity.
Defined.

(** C4 as stated fails: with a blank second query it is the second query
    that is reported, by a [NonEmptyStringError]. *)
Lemma compareBreeds_blank_second_query :
  getDogBreedData dogBreeds "Unicorn Hound"
    {| fuzzy := Some true; lang := None |} = Ok None
  ∧ compareBreeds dogBreeds "Unicorn Hound" ""
    = Throw (NonEmptyStringError "Breed 2")
  ∧ compareBreeds dogBreeds "Unicorn Hound" ""
    ≠ Throw (Error (not_found_message "Unicorn Hound")).
Proof. split; [|split]; vm_compute; [reflexivity|reflexivity|discriminate]. Qed.

Lemma getDogsByWeightRange_swap_and_alias_witness :
  sameUnitAlias (Some "kg") (Some "kilograms")
  ∧ getDogsByWeightRange dogBreeds (number 50) (number 30) (Some "lbs")
    = getDogsByWeightRange dogBreeds (number 30) (number 50) (Some "lbs")
  ∧ getDogsByWeightRange dogBreeds (number 14) (number 18) (Some "kg")
    = getDogsByWeightRange dogBreeds (number 14) (number 18)
        (Some "kilograms").
Proof.
  assert (sameUnitAlias (Some "kg") (Some "kilograms")) as Halias.
  { left. split; apply (bool_decide_unpack _); vm_compute; exact I. }
  split; [exact Halias|]. split.
  - exact (proj1 (getDogsByWeightRange_swap_and_alias dogBreeds
                     (number 50) (number 30) (Some "lbs") None)).
  - exact (proj2 (getDogsByWeightRange_swap_and_alias dogBreeds
                     (number 14) (number 18) (Some "kg") (Some "kilograms"))
                 Halias).
Defined.

Lemma getRecommendedBreeds_weightRange_witness :
  ∃ dog_weight weightData,
    weight dachshund = Some dog_weight
    ∧ lbs dog_weight = Some weightData
    ∧ JsNumber.lt (MinMax.max weightData) (number 10) = false
    ∧ JsNumber.gt (MinMax.min weightData) (number 20) = false.
Proof.
  destruct (getRecommendedBreeds_weightRange dogBreeds
              (only_weightRange
                 {| Pref.min := number 10; Pref.max := number 20;
                    Pref.unit := Some "lbs" |})
              {| Pref.min := number 10; Pref.max := number 20;
                 Pref.unit := Some "lbs" |}
              dachshund)
    as (dog_weight & weightData & Hweight & _ & Hlbs & Hmin & Hmax).
  - reflexivity.
  - apply filter_In. split; [simpl; tauto | vm_compute; reflexivity].
  - exists dog_weight, weightData.
    split; [exact Hweight|]. split; [|split; [exact Hmin | exact Hmax]].
    apply Hlbs. discriminate.
Defined.

(** The bounds of a [weightRange] are not put in order, unlike those of
    [getDogsByWeightRange]; and ["kg"] is not read as ["kgs"]. *)
Example weightRange_bounds_as_given :
  ¬ In golden
      (getRecommendedBreeds dogBreeds
         (only_weightRange
            {| Pref.min := number 80; Pref.max := number 60;
               Pref.unit := Some "lbs" |}))
  ∧ In golden
      (getRecommendedBreeds dogBreeds
         (only_weightRange
            {| Pref.min := number 60; Pref.max := number 80;
               Pref.unit := Some "lbs" |}))
  ∧ (∃ result,
       getDogsByWeightRange dogBreeds (number 80) (number 60) (Some "lbs")
       = Ok result ∧ In golden result).
Proof.
  split; [|split].
  - intros [_ H]%filter_In. vm_compute in H. discriminate.
  - apply filter_In. split; [simpl; tauto | vm_compute; reflexivity].
  - eexists. split; [vm_compute; reflexivity | simpl; tauto].
Qed.

Example weightRange_no_alias :
  In village_dog
    (getRecommendedBreeds dogBreeds
       (only_weightRange
          {| Pref.min := number 30; Pref.max := number 40;
             Pref.unit := Some "kg" |}))
  ∧ ¬ In village_dog
        (getRecommendedBreeds dogBreeds
           (only_weightRange
              {| Pref.min := number 30; Pref.max := number 40;
                 Pref.unit := Some "kgs" |})).
Proof.
  split.
  - apply filter_In. split; [simpl; tauto | vm_compute; reflexivity].
  - intros [_ H]%filter_In. vm_compute in H. discriminate.
Qed.

Lemma getRecommendedBreeds_compatibility_witness :
  ¬ In affenpinscher
      (getRecommendedBreeds dogBreeds
         (only_compatibility
            {| children := Some true; otherDogs := None; cats := None |})).
Proof.
  destruct (getRecommendedBreeds_compatibility dogBreeds
              (only_compatibility
                 {| children := Some true; otherDogs := None;
                    cats := None |})
              affenpinscher) as [Hnone _].
  intros Hin. apply Hnone in Hin as [Hpref _].
  - discriminate Hpref.
  - reflexivity.
Defined.

(** C8 as stated fails: a [compatibility] preference that sets none of the
    three keys supplies no constraint, yet the breed without a
    [compatibility] object, returned for the empty preferences, is
    excluded. *)
Lemma compatibility_without_constraint_excludes :
  compatibility affenpinscher = None
  ∧ children no_constraint = None
  ∧ otherDogs no_constraint = None
  ∧ cats no_constraint = None
  ∧ In affenpinscher (getRecommendedBreeds dogBreeds Pref.empty)
  ∧ ¬ In affenpinscher
        (getRecommendedBreeds dogBreeds (only_compatibility no_constraint)).
Proof.
  do 4 (split; [reflexivity|]). split.
  - apply filter_In. split; [simpl; tauto | vm_compute; reflexivity].
  - intros [_ H]%filter_In. vm_compute in H. discriminate.
Qed.

(** What [parseLifespanAverage] makes of the usual forms: the mean of the
    two bounds, the single value, and [null]. *)
Example parseLifespanAverage_forms :
  parseLifespanAverage (Some "10-12 years") = Some (Fin 11)
  ∧ parseLifespanAverage (Some "10 - 13 years") = Some (Fin (23 # 2))
  ∧ parseLifespanAverage (Some "12") = Some (Fin 12)
  ∧ parseLifespanAverage (Some "varies") = None
  ∧ parseLifespanAverage (Some "") = None
  ∧ parseLifespanAverage None = None.
Proof. repeat split; vm_compute; reflexivity. Qed.

(** Beyond 2^53 the digits are rounded to the nearest double before they
    are compared or averaged. *)
Example parseLifespanAverage_rounds :
  parseLifespanAverage (Some "9007199254740995")
  = Some (Fin (inject_Z 9007199254740996))
  ∧ JsNumber.lt (Fin (inject_Z 9007199254740996))
                (Fin (inject_Z 9007199254740996)) = false
  ∧ parseLifespanAverage (Some "9007199254740993 - 9007199254740995")
    = Some (Fin (inject_Z 9007199254740994))
  ∧ JsNumber.round (1 # 10)
    = Fin (3602879701896397 # 36028797018963968)
  ∧ JsNumber.round (inject_Z (2 ^ 1024 - 2 ^ 970)) = PosInf
  ∧ JsNumber.round (inject_Z (2 ^ 1024 - 2 ^ 970 - 1))
    = Fin (inject_Z (2 ^ 1024 - 2 ^ 971)).
Proof. repeat split; vm_compute; reflexivity. Qed.

Lemma getRecommendedBreeds_minLifespan_witness :
  ¬ In golden (getRecommendedBreeds dogBreeds (only_minLifespan (number 12))).
Proof.
  destruct (getRecommendedBreeds_minLifespan dogBreeds
              (only_minLifespan (number 12)) (number 12) golden)
    as [Hbelow _].
  - reflexivity.
  - reflexivity.
  - apply (Hbelow (Fin 11)).
    + vm_compute. reflexivity.
    + reflexivity.
Defined.

(** C2 as stated fails: a lifespan that is a non-empty string without a
    number does not parse, and the breed is returned all the same. *)
Lemma unparsed_lifespan_not_excluded :
  lifespan village_dog = Some "varies"
  ∧ parseLifespanAverage (Some "varies") = None
  ∧ JsNumber.gt (number 10) JsNumber.zero = true
  ∧ In village_dog
      (getRecommendedBreeds dogBreeds (only_minLifespan (number 10))).
Proof.
  split; [reflexivity|]. split; [vm_compute; reflexivity|].
  split; [reflexivity|].
  apply (proj2 (filter_In _ _ _)).
  split; [simpl; tauto | vm_compute; reflexivity].
Qed.

End OnSample.

(** ** The search on the object store *)

Lemma reads_app h h' locs objs :
  reads h locs objs → reads (h ++ h')%list locs objs.
Proof.
  intros H. eapply Forall2_impl; [exact H|].
  intros l o Hl. by apply lookup_app_l_Some.
Qed.

Lemma reads_fresh h objs :
  reads (h ++ objs)%list (seq (length h) (length objs)) objs.
Proof.
  revert h. induction objs as [|o objs IH]; intros h; [constructor|].
  constructor.
  - cbn beta. rewrite lookup_app_r by lia. by rewrite Nat.sub_diag.
  - specialize (IH (h ++ [o])%list). rewrite <- app_assoc in IH. simpl in IH.
    rewrite length_app in IH. simpl in IH.
    by replace (length h + 1) with (S (length h)) in IH by lia.
Qed.

Lemma reads_In h locs objs o :
  reads h locs objs → In o objs → ∃ l, In l locs ∧ h !! l = Some o.
Proof.
  induction 1 as [|l o' locs objs Hl _ IH]; simpl; [done|].
  intros [->|Hin]; [eauto|]. destruct (IH Hin) as (l' & ? & ?). eauto.
Qed.

(** A filter whose callback only reads the object. *)
Lemma array_filter_reads (callback : nat → Heap.M bool) (g : Heap.Obj → bool)
  h locs objs :
  (∀ l o, h !! l = Some o → callback l h = Some (g o, h)) →
  reads h locs objs →
  ∃ kept,
    Heap.array_filter callback locs h = Some (kept, h)
    ∧ reads h kept (List.filter g objs)
    ∧ (∀ l, In l kept → In l locs).
Proof.
  intros Hcb. induction 1 as [|l o locs objs Hl _ (kept & IH & Hkept & Hsub)].
  - exists []. split; [done|]. split; [constructor|done].
  - exists (if g o then l :: kept else kept). split; [|split].
    + cbn [Heap.array_filter]. unfold Heap.bind at 1.
      rewrite (Hcb l o Hl). unfold Heap.bind at 1. rewrite IH. done.
    + cbn [List.filter]. destruct (g o); [by constructor|done].
    + intros l'. destruct (g o); simpl; intuition.
Qed.

(** A map whose callback allocates a copy computed from the object. *)
Lemma array_map_alloc (callback : nat → Heap.M nat) (f : Heap.Obj → Heap.Obj)
  h locs objs :
  (∀ h' l o,
     (h ++ h')%list !! l = Some o →
     callback l (h ++ h')%list
     = Some (length (h ++ h')%list, (h ++ h' ++ [f o])%list)) →
  reads h locs objs →
  Heap.array_map callback locs h
  = Some (seq (length h) (length objs), (h ++ (f <$> objs))%list).
Proof.
  intros Hcb Hreads.
  assert (∀ h', reads (h ++ h')%list locs objs →
    Heap.array_map callback locs (h ++ h')%list
    = Some (seq (length (h ++ h')%list) (length objs),
            (h ++ h' ++ (f <$> objs))%list)) as Hgen.
  { clear Hreads. revert locs.
    induction objs as [|o objs IH]; intros locs h' Hreads;
      inversion Hreads as [|l ? locs' ? Hl Hrest]; subst.
    - cbn. by rewrite app_nil_r.
    - cbn [Heap.array_map]. unfold Heap.bind at 1.
      rewrite (Hcb h' l o Hl). unfold Heap.bind at 1.
      rewrite (IH locs' (h' ++ [f o])%list).
      + cbn. rewrite <- !app_assoc, !length_app. cbn.
        by replace (length h + (length h' + 1))
          with (S (length h + length h')) by lia.
      + rewrite app_assoc. by apply reads_app. }
  specialize (Hgen [] ). rewrite !app_nil_r in Hgen. by apply Hgen.
Qed.

Lemma array_sort_Forall2 {A B : Type} (R : A → B → Prop)
  (key1 : A → nat) (key2 : B → nat) l1 l2 :
  (∀ x y, R x y → key1 x = key2 y) →
  Forall2 R l1 l2 →
  Forall2 R (array_sort (by_key key1) l1) (array_sort (by_key key2) l2).
Proof.
  intros Hkey. induction 1 as [|x y l1 l2 Hxy _ IH]; [constructor|].
  cbn [array_sort foldr].
  fold (array_sort (by_key key1) l1). fold (array_sort (by_key key2) l2).
  induction IH as [|x' y' s1 s2 Hxy' Hs IHs]; cbn [array_sort_insert].
  - by repeat constructor.
  - unfold by_key at 1 3. rewrite (Hkey _ _ Hxy), (Hkey _ _ Hxy').
    destruct (_ <=? _)%Z; [by repeat constructor | by constructor].
Qed.


Lemma score_reads h l o : h !! l = Some o → Heap.score h l = score_of o.
Proof. unfold Heap.score. by intros ->. Qed.

Section Run.
Variables (h : list Heap.Obj) (dogBreeds : list nat) (objs : list Heap.Obj).
Variables (searchTerm : string) (maxDistance : JsNum).
Hypothesis Hcatalog : reads h dogBreeds objs.
Hypothesis Hterm : trim searchTerm ≠ "".
Hypothesis Hmax : JsNumber.lt maxDistance JsNumber.zero = false.

Local Abbreviation scored :=
  (scored_copies searchTerm maxDistance objs).
Local Abbreviation stripped :=
  (stripped_copies searchTerm maxDistance objs).

(** The run of the search: the store grows by the scored copies and the
    stripped copies, and the result reads as the substring matches followed
    by the stripped copies. *)
Lemma fuzzySearchBreeds_run :
  ∃ substringMatches,
    Heap.fuzzySearchBreeds dogBreeds searchTerm maxDistance h
    = Some (Ok (substringMatches
                ++ seq (length h + length scored) (length stripped))%list,
            (h ++ scored ++ stripped)%list)
    ∧ reads h substringMatches
        (List.filter (substringMatch searchTerm ∘ Heap.fields) objs)
    ∧ (∀ l, In l substringMatches → In l dogBreeds).
Proof.
  unfold Heap.fuzzySearchBreeds.
  rewrite validateNonEmptyString_ok, validateNonNegativeNumber_ok by done.
  cbn [bind]. cbv zeta.
  edestruct (array_filter_reads
               (λ dog, Heap.bind (Heap.deref dog) (λ dog,
                  Heap.ret (includes (normalizeBreed (name (Heap.fields dog)))
                                (normalizeBreed searchTerm)
                       || includes (normalizeBreed searchTerm)
                                   (normalizeBreed (name (Heap.fields dog))))))
               (substringMatch searchTerm ∘ Heap.fields) h dogBreeds objs)
    as (substringMatches & Hrun1 & Hreads1 & Hsub1); [|exact Hcatalog|].
  { intros l o Hl. unfold Heap.bind, Heap.deref. by rewrite Hl. }
  edestruct (array_filter_reads
               (λ dog, Heap.bind (Heap.deref dog) (λ dog,
                  if includes (normalizeBreed (name (Heap.fields dog)))
                              (normalizeBreed searchTerm)
                     || includes (normalizeBreed searchTerm)
                                 (normalizeBreed (name (Heap.fields dog)))
                  then Heap.ret false
                  else Heap.ret (JsNumber.le
                              (JsNumber.of_nat
                                 (levenshteinDistance
                                    (normalizeBreed searchTerm)
                                    (normalizeBreed (name (Heap.fields dog)))))
                              maxDistance)))
               (fuzzyMatch searchTerm maxDistance ∘ Heap.fields) h dogBreeds objs)
    as (fuzzyMatches & Hrun2 & Hreads2 & _); [|exact Hcatalog|].
  { intros l o Hl. unfold Heap.bind, Heap.deref. rewrite Hl. cbn.
    unfold fuzzyMatch, substringMatch, containsEither, editDistance.
    by destruct (_ || _). }
  exists substringMatches. split; [|done].
  unfold Heap.bind at 1. rewrite Hrun1.
  unfold Heap.bind at 1. rewrite Hrun2.
  unfold Heap.bind at 1.
  erewrite (array_map_alloc _ (attach searchTerm)); [| |exact Hreads2].
  2: { intros h' l o Hl. unfold Heap.bind, Heap.deref, Heap.alloc.
       rewrite Hl. cbn.
       by rewrite <- app_assoc. }
  rewrite <- (length_fmap (attach searchTerm) (List.filter _ objs)).
  fold (scored_copies searchTerm maxDistance objs).
  unfold Heap.bind at 1. unfold Heap.sort_by_score at 1.
  unfold Heap.bind at 1.
  pose proof (reads_fresh h scored) as Hscored.
  apply (array_sort_Forall2 _ (Heap.score (h ++ scored)%list) score_of) in Hscored;
    [|by intros; apply score_reads].
  change (λ a b : nat,
            (Z.of_nat (Heap.score (h ++ scored)%list a)
             - Z.of_nat (Heap.score (h ++ scored)%list b))%Z)
    with (by_key (Heap.score (h ++ scored)%list)).
  erewrite (array_map_alloc _ strip); [| |exact Hscored].
  2: { intros h' l o Hl. unfold Heap.bind, Heap.deref, Heap.alloc.
       rewrite Hl. cbn.
       by rewrite <- !app_assoc. }
  rewrite <- (length_fmap strip (array_sort _ scored)).
  fold (stripped_copies searchTerm maxDistance objs). unfold Heap.ret.
  by rewrite length_app, <- app_assoc.
Qed.

End Run.


Lemma filter_fmap {A B : Type} (f : A → B) (g : B → bool) (l : list A) :
  List.filter g (f <$> l) = f <$> List.filter (g ∘ f) l.
Proof.
  induction l as [|x l IH]; [done|]. cbn.
  destruct (g (f x)); cbn; by rewrite IH.
Qed.

Lemma Forall2_In_r {A B : Type} (R : A → B → Prop) l1 l2 y :
  Forall2 R l1 l2 → In y l2 → ∃ x, In x l1 ∧ R x y.
Proof.
  induction 1 as [|x y' l1 l2 Hxy _ IH]; simpl; [done|].
  intros [->|Hin]; [eauto|]. destruct (IH Hin) as (x' & ? & ?). eauto.
Qed.

Lemma Forall2_In_l {A B : Type} (R : A → B → Prop) l1 l2 x :
  Forall2 R l1 l2 → In x l1 → ∃ y, In y l2 ∧ R x y.
Proof.
  induction 1 as [|x' y l1 l2 Hxy _ IH]; simpl; [done|].
  intros [->|Hin]; [eauto|]. destruct (IH Hin) as (y' & ? & ?). eauto.
Qed.

(** C10: take a store in which the references of the catalog lead to breed
    objects without a [_matchScore], a search term that is not blank and a
    [maxDistance] the validation accepts.  Then the search returns, and
    every object that existed before the call is the same after it (no
    catalog record is mutated); the returned references read, in order, as
    the breeds the value-level [fuzzySearchBreeds] returns, each as an
    object with exactly the fields of the breed and no [_matchScore]; and
    each returned object has exactly the properties of an object of the
    catalog. *)
Theorem search_returns_plain_records_and_mutates_nothing
  (h : list Heap.Obj) (dogBreeds : list nat) (catalog : list DogBreedData)
  (searchTerm : string) (maxDistance : JsNum) :
  Forall2 (λ l d, h !! l = Some (plain d)) dogBreeds catalog →
  trim searchTerm ≠ "" →
  JsNumber.lt maxDistance JsNumber.zero = false →
  ∃ result h' values,
    Heap.fuzzySearchBreeds dogBreeds searchTerm maxDistance h
    = Some (Ok result, h')
    ∧ (∀ l o, h !! l = Some o → h' !! l = Some o)
    ∧ fuzzySearchBreeds catalog searchTerm maxDistance = Ok values
    ∧ Forall2 (λ r d, h' !! r = Some (plain d)) result values
    ∧ Forall (λ r, ∃ c o,
                In c dogBreeds ∧ h !! c = Some o ∧ h' !! r = Some o
                ∧ Heap._matchScore o = None) result.
Proof.
  intros Hcatalog Hterm Hmax.
  assert (reads h dogBreeds (plain <$> catalog)) as Hreads.
  { by apply Forall2_fmap_r. }
  destruct (fuzzySearchBreeds_run h dogBreeds (plain <$> catalog)
              searchTerm maxDistance Hreads Hterm Hmax)
    as (substringMatches & Hrun & Hsubs & _).
  unfold stripped_copies, scored_copies in Hrun.
  set (values := (List.filter (substringMatch searchTerm) catalog
         ++ array_sort (by_key (editDistance searchTerm))
              (List.filter (fuzzyMatch searchTerm maxDistance) catalog))%list).
  eexists _, _, values. split; [exact Hrun|].
  match goal with |- _ ∧ _ ∧ ?G ∧ _ => assert G as Hvalues end.
  { apply Forall2_app.
    - rewrite (filter_fmap plain) in Hsubs. apply Forall2_fmap_r in Hsubs.
      eapply Forall2_impl; [exact Hsubs|].
      intros l d Hl. by apply lookup_app_l_Some.
    - rewrite (filter_fmap plain).
      rewrite <- list_fmap_compose.
      rewrite <- (array_sort_fmap (attach searchTerm ∘ plain) score_of).
      rewrite <- list_fmap_compose.
      change (strip ∘ (attach searchTerm ∘ plain)) with plain.
      change (score_of ∘ (attach searchTerm ∘ plain))
        with (editDistance searchTerm).
      change (fuzzyMatch searchTerm maxDistance ∘ Heap.fields ∘ plain)
        with (fuzzyMatch searchTerm maxDistance).
      set (sorted := array_sort _ _).
      rewrite !length_fmap.
      pose proof (reads_fresh
                    (h ++ ((attach searchTerm ∘ plain)
                           <$> List.filter (fuzzyMatch searchTerm maxDistance)
                                 catalog))%list
                    (plain <$> sorted)) as Hfresh.
      rewrite !length_app, !length_fmap, <- app_assoc in Hfresh.
      by apply Forall2_fmap_r in Hfresh. }
  split; [intros l o Hl; by apply lookup_app_l_Some|].
  split; [by apply fuzzySearchBreeds_eq|].
  split; [exact Hvalues|].
  apply Forall_forall. intros r Hr.
  apply list_elem_of_In in Hr.
  destruct (Forall2_In_l _ _ _ _ Hvalues Hr) as (d & Hd & Hrd).
  assert (In d catalog) as Hin.
  { unfold values in Hd. apply in_app_or in Hd as [Hd|Hd].
    - by apply filter_In in Hd as [? _].
    - apply list_elem_of_In in Hd. rewrite array_sort_perm in Hd.
      by apply list_elem_of_In, filter_In in Hd as [? _]. }
  destruct (Forall2_In_r _ _ _ _ Hcatalog Hin) as (c & Hc & Hcd).
  exists c, (plain d). done.
Qed.

(** A search that is rejected by the validation has not touched the
    store. *)
Lemma search_rejected_leaves_store
  (h : list Heap.Obj) (dogBreeds : list nat)
  (searchTerm : string) (maxDistance : JsNum) :
  trim searchTerm = "" ∨ JsNumber.lt maxDistance JsNumber.zero = true →
  ∃ e,
    Heap.fuzzySearchBreeds dogBreeds searchTerm maxDistance h
    = Some (Throw e, h).
Proof.
  unfold Heap.fuzzySearchBreeds, validateNonEmptyString,
    validateNonNegativeNumber, strictEq.
  intros [Hterm|Hmax].
  - rewrite bool_decide_eq_true_2 by done. cbn. eauto.
  - case_bool_decide; cbn; [eauto|]. rewrite Hmax. eauto.
Qed.

Section StoreOnSample.
Import Sample.

Lemma search_returns_plain_records_and_mutates_nothing_witness :
  ∃ result h',
    Heap.fuzzySearchBreeds [0; 1; 2; 3; 4] "daschund" (number 3)
      (plain <$> dogBreeds)
    = Some (Ok result, h')
    ∧ (∀ l o, (plain <$> dogBreeds) !! l = Some o → h' !! l = Some o)
    ∧ Forall (λ r, ∃ c o,
                In c [0; 1; 2; 3; 4]
                ∧ (plain <$> dogBreeds) !! c = Some o
                ∧ h' !! r = Some o
                ∧ Heap._matchScore o = None) result.
Proof.
  destruct (search_returns_plain_records_and_mutates_nothing
              (plain <$> dogBreeds) [0; 1; 2; 3; 4] dogBreeds
              "daschund" (number 3))
    as (result & h' & values & Hrun & Hframe & _ & _ & Hfields).
  - repeat constructor.
  - vm_compute. discriminate.
  - reflexivity.
  - exists result, h'. split; [exact Hrun|]. split; [exact Hframe|].
    exact Hfields.
Defined.

(** The run on the small catalog: the dachshund is found as a fuzzy match,
    and the reference returned is that of a fresh copy. *)
Example search_on_sample :
  ∃ h',
    Heap.fuzzySearchBreeds [0; 1; 2; 3; 4] "daschund" (number 3)
      (plain <$> dogBreeds)
    = Some (Ok [6], h')
    ∧ h' !! 6 = Some (plain dachshund)
    ∧ h' !! 2 = Some (plain dachshund)
    ∧ length h' = 7.
Proof. eexists. split; [vm_compute; reflexivity|]. by vm_compute. Qed.

End StoreOnSample.

(* ================================================================== *)
(** * Further properties *)

(** ** Trimming and lower-casing *)

Lemma isWhiteSpace_lowerChar c : isWhiteSpace (lowerChar c) = isWhiteSpace c.
Proof. destruct c as [[] [] [] [] [] [] [] []]; vm_compute; reflexivity. Qed.

Lemma lowerChar_idemp c : lowerChar (lowerChar c) = lowerChar c.
Proof. destruct c as [[] [] [] [] [] [] [] []]; vm_compute; reflexivity. Qed.

Lemma toLowerCase_idemp s : toLowerCase (toLowerCase s) = toLowerCase s.
Proof. induction s as [|c s IH]; simpl; [done|]. by rewrite lowerChar_idemp, IH. Qed.

Lemma toLowerCase_empty s : toLowerCase s = "" ↔ s = "".
Proof. destruct s; simpl; split; done. Qed.

Lemma toLowerCase_trimStart s :
  toLowerCase (trimStart s) = trimStart (toLowerCase s).
Proof.
  induction s as [|c s IH]; simpl; [done|].
  rewrite isWhiteSpace_lowerChar. by destruct (isWhiteSpace c).
Qed.

Lemma toLowerCase_trimEnd s :
  toLowerCase (trimEnd s) = trimEnd (toLowerCase s).
Proof.
  induction s as [|c s IH]; simpl; [done|].
  rewrite <- IH, isWhiteSpace_lowerChar.
  destruct (trimEnd s); simpl; [by destruct (isWhiteSpace c)|done].
Qed.

Lemma toLowerCase_trim s : toLowerCase (trim s) = trim (toLowerCase s).
Proof. unfold trim. by rewrite toLowerCase_trimEnd, toLowerCase_trimStart. Qed.

Lemma trimStart_clean s : startsClean (trimStart s).
Proof.
  induction s as [|c s IH]; simpl; [done|].
  destruct (isWhiteSpace c) eqn:Hc; [done|]. simpl. done.
Qed.

Lemma trimStart_id s : startsClean s → trimStart s = s.
Proof. destruct s as [|c s]; simpl; [done|]. by intros ->. Qed.

Lemma trimEnd_clean s : startsClean s → startsClean (trimEnd s).
Proof.
  destruct s as [|c s]; simpl; [done|]. intros Hc.
  destruct (trimEnd s); simpl; [by rewrite Hc|done].
Qed.

Lemma trimEnd_idemp s : trimEnd (trimEnd s) = trimEnd s.
Proof.
  induction s as [|c s IH]; simpl; [done|].
  destruct (trimEnd s) as [|d t] eqn:Ht.
  - destruct (isWhiteSpace c) eqn:Hc; simpl; [done|]. by rewrite Hc.
  - simpl in *. by rewrite IH.
Qed.

Lemma trim_idemp s : trim (trim s) = trim s.
Proof.
  unfold trim.
  rewrite (trimStart_id (trimEnd (trimStart s)))
    by apply trimEnd_clean, trimStart_clean.
  apply trimEnd_idemp.
Qed.

(** X1: [normalizeBreed] is idempotent: a normalized name is its own normal
    form. *)
Theorem normalizeBreed_idempotent s :
  normalizeBreed (normalizeBreed s) = normalizeBreed s.
Proof.
  unfold normalizeBreed.
  by rewrite <- toLowerCase_trim, trim_idemp, toLowerCase_idemp.
Qed.

Lemma trimEnd_empty s : trimEnd s = "" ↔ allWhiteSpace s = true.
Proof.
  induction s as [|c s IH]; simpl; [done|].
  destruct (trimEnd s) as [|d t].
  - destruct (isWhiteSpace c); simpl; [|done].
    split; [intros _; by apply IH|done].
  - split; [done|]. intros [_ H]%andb_true_iff. by apply IH in H.
Qed.

Lemma allWhiteSpace_trimStart s :
  allWhiteSpace (trimStart s) = allWhiteSpace s.
Proof.
  induction s as [|c s IH]; simpl; [done|].
  destruct (isWhiteSpace c) eqn:Hc; simpl; [done|]. by rewrite Hc.
Qed.

Lemma trim_empty s : trim s = "" ↔ allWhiteSpace s = true.
Proof. unfold trim. by rewrite trimEnd_empty, allWhiteSpace_trimStart. Qed.

(** ** The edit distance as a least number of edits *)

Lemma lev_nil_r x : lev x [] = length x.
Proof. by destruct x. Qed.

Lemma lev_cons_cons c d x y :
  lev (c :: x) (d :: y)
  = min3 (lev x (d :: y) + 1) (lev (c :: x) y + 1)
         (lev x y + (if decide (c = d) then 0 else 1)).
Proof. reflexivity. Qed.

Global Opaque lev.
Lemma lev_nil_l y : lev [] y = length y.
Proof. Transparent lev. reflexivity. Opaque lev. Qed.

Lemma lev_drop_l c x y : lev (c :: x) y ≤ lev x y + 1.
Proof.
  destruct y as [|d y]; [rewrite !lev_nil_r; simpl; lia|].
  rewrite lev_cons_cons. unfold min3. lia.
Qed.

Lemma lev_drop_r d x y : lev x (d :: y) ≤ lev x y + 1.
Proof.
  destruct x as [|c x]; [rewrite !lev_nil_l; simpl; lia|].
  rewrite lev_cons_cons. unfold min3. lia.
Qed.

Lemma lev_add_l c x y : lev x y ≤ lev (c :: x) y + 1.
Proof.
  induction y as [|d y IH]; [rewrite !lev_nil_r; simpl; lia|].
  rewrite lev_cons_cons. pose proof (lev_drop_r d x y). unfold min3. lia.
Qed.

Lemma lev_subst_l c d x y : lev (c :: x) y ≤ lev (d :: x) y + 1.
Proof.
  induction y as [|e y IH]; [rewrite !lev_nil_r; simpl; lia|].
  rewrite !lev_cons_cons. unfold min3.
  repeat case_decide; lia.
Qed.

Lemma lev_context a p q :
  (∀ y, lev p y ≤ lev q y + 1) → ∀ y, lev (a :: p) y ≤ lev (a :: q) y + 1.
Proof.
  intros H y. induction y as [|d y IH].
  - rewrite !lev_nil_r. specialize (H []). rewrite !lev_nil_r in H.
    simpl. lia.
  - rewrite !lev_cons_cons. pose proof (H (d :: y)). pose proof (H y).
    unfold min3. lia.
Qed.

Lemma lev_edit1 x x' y : edit1 x x' → lev x y ≤ lev x' y + 1.
Proof.
  intros Hedit. revert y.
  destruct Hedit as [u v c|u v c|u v c d];
    induction u as [|a u IH]; simpl;
    try (by apply lev_context);
    intros y.
  - apply lev_add_l.
  - apply lev_drop_l.
  - apply lev_subst_l.
Qed.

Lemma lev_diag x : lev x x = 0.
Proof.
  induction x as [|c x IH]; [done|].
  rewrite lev_cons_cons, IH, decide_True by done. unfold min3. lia.
Qed.

Lemma lev_least n x y : edits n x y → lev x y ≤ n.
Proof.
  induction 1 as [x|n x y z Hstep _ IH]; [by rewrite lev_diag|].
  pose proof (lev_edit1 _ _ z Hstep). lia.
Qed.

Lemma edit1_cons a x y : edit1 x y → edit1 (a :: x) (a :: y).
Proof.
  intros [u v c|u v c|u v c d].
  - apply (edit_insert (a :: u)).
  - apply (edit_delete (a :: u)).
  - apply (edit_substitute (a :: u)).
Qed.

Lemma edits_cons a n x y : edits n x y → edits n (a :: x) (a :: y).
Proof.
  induction 1; econstructor; eauto using edit1_cons.
Qed.

Lemma edits_app n m x y z :
  edits n x y → edits m y z → edits (n + m) x z.
Proof. induction 1; simpl; [done|]. intros. econstructor; eauto. Qed.

Lemma edits_snoc n x y z : edits n x y → edit1 y z → edits (n + 1) x z.
Proof.
  intros H1 H2. apply (edits_app _ _ _ y); [done|].
  econstructor; [done|constructor].
Qed.

Lemma edits_insert_all y : edits (length y) [] y.
Proof.
  induction y as [|d y IH]; [constructor|].
  replace (length (d :: y)) with (length y + 1) by (simpl; lia).
  eapply edits_snoc; [exact IH|]. apply (edit_insert [] y d).
Qed.

Lemma edits_delete_all x : edits (length x) x [].
Proof.
  induction x as [|c x IH]; [constructor|].
  simpl. econstructor; [apply (edit_delete [] x c)|done].
Qed.

Lemma lev_reached x y : edits (lev x y) x y.
Proof.
  revert y. induction x as [|c x IHx]; intros y.
  - rewrite lev_nil_l. apply edits_insert_all.
  - induction y as [|d y IHy].
    + rewrite lev_nil_r. apply edits_delete_all.
    + rewrite lev_cons_cons.
      assert (∀ p q r, min3 p q r = p ∨ min3 p q r = q ∨ min3 p q r = r)
        as Hmin by (intros; unfold min3; lia).
      destruct (Hmin (lev x (d :: y) + 1) (lev (c :: x) y + 1)
                  (lev x y + (if decide (c = d) then 0 else 1)))
        as [-> | [-> | ->]].
      * rewrite Nat.add_comm. simpl.
        econstructor; [apply (edit_delete [] x c)|apply IHx].
      * eapply edits_snoc; [exact IHy|]. apply (edit_insert [] y d).
      * case_decide as Hcd.
        -- subst. rewrite Nat.add_0_r. apply edits_cons, IHx.
        -- rewrite Nat.add_comm. simpl.
           econstructor; [apply (edit_substitute [] x c d)|].
           apply edits_cons, IHx.
Qed.

Lemma edit1_reverse x y : edit1 x y → edit1 (reverse x) (reverse y).
Proof.
  intros [u v c|u v c|u v c d];
    rewrite ?reverse_app, ?reverse_cons, <- ?app_assoc; simpl; constructor.
Qed.

Lemma edits_reverse n x y : edits n x y → edits n (reverse x) (reverse y).
Proof. induction 1; econstructor; eauto using edit1_reverse. Qed.

(** Strings as lists *)
Lemma length_list_ascii s :
  length (list_ascii_of_string s) = String.length s.
Proof. induction s; simpl; auto. Qed.

Lemma charAt_lookup s i : charAt s i = list_ascii_of_string s !! i.
Proof.
  unfold charAt. revert i. induction s as [|c s IH]; intros [|i]; simpl; auto.
Qed.

Lemma dist_lev a b i j :
  i ≤ String.length b → j ≤ String.length a →
  dist a b i j
  = lev (reverse (take i (list_ascii_of_string b)))
        (reverse (take j (list_ascii_of_string a))).
Proof.
  revert j. induction i as [|i IHi]; intros j Hi Hj.
  - rewrite dist_0_l, lev_nil_l, length_reverse, length_take,
      length_list_ascii. lia.
  - induction j as [|j IHj].
    + rewrite dist_0_r. simpl take at 2. rewrite lev_nil_r, length_reverse,
        length_take, length_list_ascii. lia.
    + destruct (list_ascii_of_string b !! i) as [bi|] eqn:Hbi.
      2: { apply lookup_ge_None in Hbi. rewrite length_list_ascii in Hbi. lia. }
      destruct (list_ascii_of_string a !! j) as [aj|] eqn:Haj.
      2: { apply lookup_ge_None in Haj. rewrite length_list_ascii in Haj. lia. }
      rewrite (take_S_r _ _ _ Hbi), (take_S_r _ _ _ Haj), !reverse_snoc.
      rewrite lev_cons_cons, dist_S_S.
      rewrite <- reverse_snoc, <- (take_S_r _ _ _ Haj).
      rewrite <- (IHi (S j)) by lia.
      rewrite <- (IHi j) by lia.
      rewrite <- reverse_snoc, <- (take_S_r _ _ _ Hbi).
      rewrite <- IHj by lia.
      rewrite !charAt_lookup, Hbi, Haj.
      do 2 f_equal. repeat case_decide; congruence.
Qed.

Lemma levenshteinDistance_lev a b :
  levenshteinDistance a b
  = lev (reverse (list_ascii_of_string a)) (reverse (list_ascii_of_string b)).
Proof.
  rewrite levenshteinDistance_dist, dist_sym, dist_lev by done.
  rewrite !take_ge by (rewrite length_list_ascii; lia). done.
Qed.

(** X3: [levenshteinDistance a b] is the least number of single edits
    (a code unit inserted, deleted or replaced) that turn [a] into [b]:
    that many edits do it, and no fewer. *)
Theorem levenshteinDistance_least_edits a b :
  edits (levenshteinDistance a b)
        (list_ascii_of_string a) (list_ascii_of_string b)
  ∧ ∀ n, edits n (list_ascii_of_string a) (list_ascii_of_string b) →
         levenshteinDistance a b ≤ n.
Proof.
  rewrite levenshteinDistance_lev. split.
  - rewrite <- (reverse_involutive (list_ascii_of_string a)) at 2.
    rewrite <- (reverse_involutive (list_ascii_of_string b)) at 2.
    apply edits_reverse, lev_reached.
  - intros n H. by apply lev_least, edits_reverse.
Qed.

(** X4: the triangle inequality of [levenshteinDistance]. *)
Theorem levenshteinDistance_triangle a b c :
  levenshteinDistance a c ≤ levenshteinDistance a b + levenshteinDistance b c.
Proof.
  rewrite !levenshteinDistance_lev.
  apply lev_least. eapply edits_app; apply lev_reached.
Qed.

Lemma lev_bounds x y :
  lev x y ≤ Nat.max (length x) (length y)
  ∧ length x - length y ≤ lev x y ∧ length y - length x ≤ lev x y.
Proof.
  revert y. induction x as [|c x IHx]; intros y.
  - rewrite lev_nil_l. simpl. lia.
  - induction y as [|d y IHy].
    + rewrite lev_nil_r. simpl. lia.
    + rewrite lev_cons_cons.
      pose proof (IHx (d :: y)). pose proof (IHx y). simpl in *.
      unfold min3. repeat case_decide; lia.
Qed.

(** X5: [levenshteinDistance a b] is at most the length of the longer
    string and at least the difference of the two lengths. *)
Theorem levenshteinDistance_bounds a b :
  levenshteinDistance a b ≤ Nat.max (String.length a) (String.length b)
  ∧ String.length a - String.length b ≤ levenshteinDistance a b
  ∧ String.length b - String.length a ≤ levenshteinDistance a b.
Proof.
  rewrite levenshteinDistance_lev.
  pose proof (lev_bounds (reverse (list_ascii_of_string a))
                (reverse (list_ascii_of_string b))) as H.
  by rewrite !length_reverse, !length_list_ascii in H.
Qed.

(** ** The two searches *)

Lemma filter_disjoint_app {A : Type} (p q : A → bool) (l : list A) :
  (∀ x, p x = true → q x = false) →
  (List.filter p l ++ List.filter q l)%list ≡ₚ List.filter (λ x, p x || q x) l.
Proof.
  intros Hpq. induction l as [|x l IH]; [done|]. cbn.
  destruct (p x) eqn:Hp; cbn.
  - rewrite (Hpq x Hp). by f_equiv.
  - destruct (q x); [|done].
    rewrite <- Permutation_middle. by f_equiv.
Qed.

Lemma fuzzySearchBreeds_inv dogBreeds searchTerm maxDistance result :
  fuzzySearchBreeds dogBreeds searchTerm maxDistance = Ok result →
  trim searchTerm ≠ "" ∧ JsNumber.lt maxDistance JsNumber.zero = false.
Proof.
  unfold fuzzySearchBreeds, validateNonEmptyString, validateNonNegativeNumber,
    strictEq.
  case_bool_decide; [done|]. cbn.
  destruct (JsNumber.lt maxDistance JsNumber.zero); [done|]. done.
Qed.

Lemma le_trans x y z :
  JsNumber.le x y = true → JsNumber.le y z = true → JsNumber.le x z = true.
Proof.
  destruct x, y, z; simpl; try done. intros H1 H2. q_cases.
Qed.

Lemma le_zero_of_nat n : JsNumber.le JsNumber.zero (JsNumber.of_nat n) = true.
Proof.
  unfold JsNumber.le, JsNumber.zero, JsNumber.of_nat.
  rewrite Qle_bool_iff, <- Zle_Qle. lia.
Qed.

Lemma not_substring_positive searchTerm dog :
  substringMatch searchTerm dog = false → editDistance searchTerm dog ≠ 0.
Proof.
  intros Hsub Hzero. apply levenshteinDistance_zero in Hzero.
  unfold substringMatch, containsEither in Hsub.
  by rewrite Hzero, includes_refl in Hsub.
Qed.

(** A list sorted on a key is determined by its elements of each key. *)
Lemma sorted_stable_unique {A : Type} (key : A → nat) (l1 l2 : list A) :
  StronglySorted (λ x y, key x ≤ key y) l1 →
  StronglySorted (λ x y, key x ≤ key y) l2 →
  (∀ d, List.filter (λ x, key x =? d) l1 = List.filter (λ x, key x =? d) l2) →
  l1 = l2.
Proof.
  intros H1. revert l2. induction H1 as [|x l1 Hl1 IH Hx]; intros l2 H2 Hf.
  - destruct l2 as [|y l2]; [done|].
    specialize (Hf (key y)). cbn in Hf. by rewrite Nat.eqb_refl in Hf.
  - destruct H2 as [|y l2 Hl2 Hy].
    { specialize (Hf (key x)). cbn in Hf. by rewrite Nat.eqb_refl in Hf. }
    assert (In x (y :: l2)) as Hxin.
    { assert (In x (List.filter (λ z, key z =? key x) (x :: l1))) as Hin.
      { apply filter_In. split; [by left|apply Nat.eqb_refl]. }
      rewrite Hf in Hin. by apply filter_In in Hin as [? _]. }
    assert (In y (x :: l1)) as Hyin.
    { assert (In y (List.filter (λ z, key z =? key y) (y :: l2))) as Hin.
      { apply filter_In. split; [by left|apply Nat.eqb_refl]. }
      rewrite <- Hf in Hin. by apply filter_In in Hin as [? _]. }
    assert (key x = key y) as Hkey.
    { apply Nat.le_antisymm.
      - destruct Hyin as [->|Hyin]; [done|].
        rewrite Forall_forall in Hx. apply Hx. by apply list_elem_of_In.
      - destruct Hxin as [->|Hxin]; [done|].
        rewrite Forall_forall in Hy. apply Hy. by apply list_elem_of_In. }
    assert (x = y) as ->.
    { pose proof (Hf (key x)) as Hk. cbn [List.filter] in Hk.
      rewrite Hkey, Nat.eqb_refl in Hk. congruence. }
    f_equal. apply IH; [done|]. intros d. specialize (Hf d).
    cbn [List.filter] in Hf. destruct (key y =? d); congruence.
Qed.

Lemma StronglySorted_app {A : Type} (R : A → A → Prop) l1 l2 :
  StronglySorted R l1 → StronglySorted R l2 →
  (∀ x y, In x l1 → In y l2 → R x y) →
  StronglySorted R (l1 ++ l2).
Proof.
  induction 1 as [|x l1 Hl1 IH Hx]; intros H2 H12; [done|].
  simpl. constructor.
  - apply IH; [done|]. intros ? ? ? ?. apply H12; [by right|done].
  - apply Forall_app. split; [done|].
    apply Forall_forall. intros y Hy. apply H12; [by left|].
    by apply list_elem_of_In.
Qed.

Lemma StronglySorted_impl_In {A : Type} (R R' : A → A → Prop) l :
  (∀ x y, In x l → In y l → R x y → R' x y) →
  StronglySorted R l → StronglySorted R' l.
Proof.
  intros HR H. induction H as [|x l Hl IH Hx]; [constructor|].
  constructor.
  - apply IH. intros ? ? ? ?. apply HR; by right.
  - apply Forall_forall. intros y Hy. rewrite Forall_forall in Hx.
    apply HR; [by left|right; by apply list_elem_of_In|by apply Hx].
Qed.

Lemma filter_filter {A : Type} (f g : A → bool) (l : list A) :
  List.filter f (List.filter g l) = List.filter (λ x, g x && f x) l.
Proof.
  induction l as [|x l IH]; [done|]. cbn.
  destruct (g x); cbn; [destruct (f x)|]; by rewrite IH.
Qed.

Lemma filter_false {A : Type} (l : list A) : List.filter (λ _, false) l = [].
Proof. by induction l. Qed.

Section SearchTwice.
Variable dogBreeds : list DogBreedData.

(** X6: for a term that is not blank and a [maxDistance] the validation
    accepts, [fuzzySearchBreeds] returns, each once, the breeds of the
    catalog whose name contains or is contained in the term or lies within
    [maxDistance] of it: the result is a permutation of that selection, and
    has no duplicate when the catalog has none. *)
Theorem fuzzySearchBreeds_each_match_once searchTerm maxDistance :
  trim searchTerm ≠ "" →
  JsNumber.lt maxDistance JsNumber.zero = false →
  ∃ result,
    fuzzySearchBreeds dogBreeds searchTerm maxDistance = Ok result
    ∧ result ≡ₚ List.filter (λ dog, substringMatch searchTerm dog
                                   || withinDistance searchTerm maxDistance dog)
                  dogBreeds
    ∧ (NoDup dogBreeds → NoDup result).
Proof.
  intros Hterm Hmax. eexists. split; [by apply fuzzySearchBreeds_eq|].
  assert (∀ l : list DogBreedData,
            (List.filter (substringMatch searchTerm) l
             ++ array_sort (by_key (editDistance searchTerm))
                  (List.filter (fuzzyMatch searchTerm maxDistance) l))%list
            ≡ₚ List.filter (λ dog, substringMatch searchTerm dog
                                   || withinDistance searchTerm maxDistance dog)
                 l) as Hperm.
  { intros l. rewrite array_sort_perm.
    rewrite filter_disjoint_app
      by (intros dog Hdog; unfold fuzzyMatch; by rewrite Hdog).
    apply reflexive_eq, filter_ext. intros dog.
    unfold fuzzyMatch, withinDistance.
    by destruct (substringMatch searchTerm dog). }
  split; [apply Hperm|].
  intros Hnd. rewrite Hperm. by apply NoDup_ListNoDup, List.NoDup_filter, NoDup_ListNoDup.
Qed.

Lemma fuzzySearchBreeds2_eq searchTerm maxDistance :
  trim searchTerm ≠ "" →
  JsNumber.lt maxDistance JsNumber.zero = false →
  fuzzySearchBreeds2 dogBreeds searchTerm maxDistance
  = Ok (array_sort (by_key (matchScore2 searchTerm))
          (List.filter (λ dog,
             JsNumber.le (JsNumber.of_nat (matchScore2 searchTerm dog))
                         maxDistance) dogBreeds)).
Proof.
  intros Hterm Hmax. unfold fuzzySearchBreeds2.
  rewrite validateNonEmptyString_ok, validateNonNegativeNumber_ok by done.
  cbn [bind]. f_equal. cbv zeta.
  set (mk := λ dog, {| dog := dog; _matchScore := _ |}).
  change (λ a b : Scored,
            (Z.of_nat (_matchScore a) - Z.of_nat (_matchScore b))%Z)
    with (by_key _matchScore).
  rewrite (filter_fmap mk), <- (array_sort_fmap mk _matchScore).
  rewrite <- list_fmap_compose.
  change (dog ∘ mk) with (@id DogBreedData). by rewrite list_fmap_id.
Qed.

(** X7: for every [maxDistance] that is at least zero, the one-pass
    [fuzzySearchBreeds2] returns the same breeds in the same order as
    [fuzzySearchBreeds], and throws the same errors. *)
Theorem fuzzySearchBreeds2_agrees searchTerm maxDistance :
  JsNumber.le JsNumber.zero maxDistance = true →
  fuzzySearchBreeds2 dogBreeds searchTerm maxDistance
  = fuzzySearchBreeds dogBreeds searchTerm maxDistance.
Proof.
  intros Hpos.
  assert (JsNumber.lt maxDistance JsNumber.zero = false) as Hmax.
  { destruct maxDistance; try done. simpl in *. q_cases. }
  destruct (decide (trim searchTerm = "")) as [Hblank|Hterm].
  { unfold fuzzySearchBreeds2, fuzzySearchBreeds, validateNonEmptyString,
      strictEq. by rewrite bool_decide_eq_true_2. }
  rewrite fuzzySearchBreeds2_eq, fuzzySearchBreeds_eq by done. f_equal.
  apply (sorted_stable_unique (matchScore2 searchTerm)).
  - apply array_sort_sorted.
  - apply StronglySorted_app.
    + induction dogBreeds as [|x l IH]; cbn; [constructor|].
      destruct (substringMatch searchTerm x) eqn:Hx; [|done].
      constructor; [done|]. apply Forall_forall. intros y Hy.
      apply list_elem_of_In, filter_In in Hy as [_ Hy].
      unfold matchScore2. rewrite Hx. lia.
    + eapply StronglySorted_impl_In;
        [|apply (array_sort_sorted (editDistance searchTerm))].
      intros x y Hx Hy. apply list_elem_of_In in Hx, Hy.
      rewrite array_sort_perm in Hx, Hy.
      apply list_elem_of_In, filter_In in Hx as [_ Hx].
      apply list_elem_of_In, filter_In in Hy as [_ Hy].
      apply fuzzyMatch_not_substring in Hx, Hy.
      unfold matchScore2. by rewrite Hx, Hy.
    + intros x y [_ Hx]%filter_In _. unfold matchScore2. rewrite Hx. lia.
  - intros d. rewrite array_sort_stable, List.filter_app.
    rewrite (filter_ext_in (λ x, matchScore2 searchTerm x =? d)
               (λ x, editDistance searchTerm x =? d)
               (array_sort _ _)).
    2: { intros x Hx. apply list_elem_of_In in Hx.
         rewrite array_sort_perm in Hx.
         apply list_elem_of_In, filter_In in Hx as [_ Hx].
         apply fuzzyMatch_not_substring in Hx.
         unfold matchScore2. by rewrite Hx. }
    rewrite array_sort_stable, !filter_filter.
    destruct (Nat.eqb_spec d 0) as [->|Hd].
    + rewrite (filter_ext (λ x, fuzzyMatch searchTerm maxDistance x
                                && (editDistance searchTerm x =? 0))
                 (λ _, false)), filter_false, app_nil_r.
      2: { intros x. destruct (fuzzyMatch searchTerm maxDistance x) eqn:Hx;
             [|done].
           apply fuzzyMatch_not_substring, not_substring_positive in Hx.
           cbn [andb]. by apply Nat.eqb_neq. }
      apply filter_ext. intros x. unfold matchScore2.
      destruct (substringMatch searchTerm x) eqn:Hx.
      * change (JsNumber.of_nat 0) with JsNumber.zero. by rewrite Hpos.
      * apply not_substring_positive, Nat.eqb_neq in Hx. rewrite Hx.
        by rewrite andb_false_r.
    + rewrite (filter_ext (λ x, substringMatch searchTerm x
                                && (matchScore2 searchTerm x =? d))
                 (λ _, false)), filter_false.
      2: { intros x. unfold matchScore2.
           destruct (substringMatch searchTerm x); [|done].
           cbn [andb]. apply Nat.eqb_neq. lia. }
      apply filter_ext. intros x. unfold fuzzyMatch, matchScore2.
      destruct (substringMatch searchTerm x); cbn [negb andb]; [|done].
      apply andb_false_iff. right. apply Nat.eqb_neq. lia.
Qed.

(** X8: a larger [maxDistance] loses no result of
    [fuzzySearchBreeds]. *)
Theorem fuzzySearchBreeds_monotone searchTerm maxDistance maxDistance'
  result result' :
  JsNumber.le maxDistance maxDistance' = true →
  fuzzySearchBreeds dogBreeds searchTerm maxDistance = Ok result →
  fuzzySearchBreeds dogBreeds searchTerm maxDistance' = Ok result' →
  ∀ dog, In dog result → In dog result'.
Proof.
  intros Hle H1 H2 dog.
  destruct (fuzzySearchBreeds_inv _ _ _ _ H1) as [Hterm Hmax].
  destruct (fuzzySearchBreeds_inv _ _ _ _ H2) as [_ Hmax'].
  rewrite fuzzySearchBreeds_eq in H1, H2 by done.
  injection H1 as <-. injection H2 as <-.
  rewrite !in_app_iff, <- !list_elem_of_In, !array_sort_perm,
    !list_elem_of_In, !filter_In.
  intros [?|[Hin Hfuzzy]]; [by left|right]. split; [done|].
  unfold fuzzyMatch in *. apply andb_true_iff in Hfuzzy as [-> Hd].
  by rewrite (le_trans _ _ _ Hd Hle).
Qed.

(** X9: the [maxDistance] that is not finite.  [NaN] passes the
    validation; with it [fuzzySearchBreeds] returns the substring matches
    only, while [fuzzySearchBreeds2] returns nothing.  With [Infinity] the
    search returns the whole catalog. *)
Theorem fuzzySearchBreeds_not_finite searchTerm :
  trim searchTerm ≠ "" →
  fuzzySearchBreeds dogBreeds searchTerm NaN
  = Ok (List.filter (substringMatch searchTerm) dogBreeds)
  ∧ fuzzySearchBreeds2 dogBreeds searchTerm NaN = Ok []
  ∧ ∃ result,
      fuzzySearchBreeds dogBreeds searchTerm PosInf = Ok result
      ∧ result ≡ₚ dogBreeds.
Proof.
  intros Hterm. split; [|split].
  - rewrite fuzzySearchBreeds_eq by done.
    rewrite (filter_ext (fuzzyMatch searchTerm NaN) (λ _, false)),
      filter_false, app_nil_r; [done|].
    intros dog. unfold fuzzyMatch. by rewrite andb_false_r.
  - rewrite fuzzySearchBreeds2_eq by done.
    by rewrite (filter_ext _ (λ _, false)), filter_false.
  - eexists. split; [by apply fuzzySearchBreeds_eq|].
    rewrite array_sort_perm, filter_disjoint_app
      by (intros dog Hdog; unfold fuzzyMatch; by rewrite Hdog).
    rewrite (filter_ext _ (λ _, true)).
    + clear. induction dogBreeds as [|x l IH]; cbn; by f_equiv.
    + intros dog. unfold fuzzyMatch.
      by destruct (substringMatch searchTerm dog).
Qed.
End SearchTwice.

(** ** The bounds of [getDogsByWeightRange] *)

Ltac q_goal :=
  simpl; try done;
  repeat (unfold JsNumber.Qlt_bool;
          match goal with
          | |- context [Qle_bool ?p ?q] =>
              destruct (Qle_bool p q) eqn:?; simpl
          end);
  intros; q_reflect; try done; try (exfalso; lra).

Lemma lt_widen_min x lo hi lo' hi' :
  JsNumber.le lo' lo = true → JsNumber.le lo hi = true →
  JsNumber.le hi hi' = true →
  JsNumber.lt x (JsNumber.min lo hi) = false →
  JsNumber.lt x (JsNumber.min lo' hi') = false.
Proof. destruct x, lo, hi, lo', hi'; q_goal. Qed.

Lemma lt_widen_max x lo hi lo' hi' :
  JsNumber.le lo' lo = true → JsNumber.le lo hi = true →
  JsNumber.le hi hi' = true →
  JsNumber.lt (JsNumber.max lo hi) x = false →
  JsNumber.lt (JsNumber.max lo' hi') x = false.
Proof. destruct x, lo, hi, lo', hi'; q_goal. Qed.

Lemma min_NaN x : JsNumber.min NaN x = NaN ∧ JsNumber.min x NaN = NaN
  ∧ JsNumber.max NaN x = NaN ∧ JsNumber.max x NaN = NaN.
Proof. by destruct x. Qed.

Section WeightBounds.
Variable dogBreeds : list DogBreedData.

Lemma getDogsByWeightRange_eq min max unit normalizedUnit :
  validateUnit unit = Ok normalizedUnit →
  getDogsByWeightRange dogBreeds min max unit
  = Ok (List.filter (λ dog,
          match weightIn normalizedUnit dog with
          | None => false
          | Some weightData =>
              negb (JsNumber.lt (MinMax.max weightData) (JsNumber.min min max)
                    || JsNumber.gt (MinMax.min weightData)
                                   (JsNumber.max min max))
          end) dogBreeds).
Proof.
  intros Hunit. unfold getDogsByWeightRange. rewrite Hunit. cbn.
  f_equal. apply filter_ext. intros dog. unfold weightIn.
  by destruct (weight dog).
Qed.

(** X10: widening the range of [getDogsByWeightRange] loses no
    breed. *)
Theorem getDogsByWeightRange_widen lo hi lo' hi' unit result result' :
  JsNumber.le lo' lo = true →
  JsNumber.le lo hi = true →
  JsNumber.le hi hi' = true →
  getDogsByWeightRange dogBreeds lo hi unit = Ok result →
  getDogsByWeightRange dogBreeds lo' hi' unit = Ok result' →
  ∀ dog, In dog result → In dog result'.
Proof.
  intros Hlo Hmid Hhi H1 H2 dog.
  destruct (validateUnit unit) as [normalizedUnit|] eqn:Hunit.
  2: { unfold getDogsByWeightRange in H1. by rewrite Hunit in H1. }
  rewrite (getDogsByWeightRange_eq _ _ _ _ Hunit) in H1.
  rewrite (getDogsByWeightRange_eq _ _ _ _ Hunit) in H2.
  injection H1 as <-. injection H2 as <-.
  rewrite !filter_In. intros [Hin Hdog]. split; [done|].
  destruct (weightIn normalizedUnit dog) as [weightData|]; [|done].
  apply negb_true_iff, orb_false_elim in Hdog as [Hmin Hmax].
  apply negb_true_iff, orb_false_intro.
  - by apply (lt_widen_min _ lo hi).
  - by apply (lt_widen_max _ lo hi).
Qed.

(** X11: a bound that is [NaN] passes [validateNumberRange] and switches
    the range test off: [getDogsByWeightRange] then returns every breed
    that has a weight entry for the unit, whichever argument the [NaN]
    is. *)
Theorem getDogsByWeightRange_NaN bound unit normalizedUnit :
  validateUnit unit = Ok normalizedUnit →
  getDogsByWeightRange dogBreeds NaN bound unit
  = Ok (List.filter (λ dog, bool_decide (weightIn normalizedUnit dog ≠ None))
          dogBreeds)
  ∧ getDogsByWeightRange dogBreeds bound NaN unit
    = getDogsByWeightRange dogBreeds NaN bound unit.
Proof.
  intros Hunit. rewrite !(getDogsByWeightRange_eq _ _ _ _ Hunit).
  destruct (min_NaN bound) as (-> & -> & -> & ->). split; [|done].
  f_equal. apply filter_ext. intros dog.
  destruct (weightIn normalizedUnit dog) as [weightData|]; [|done].
  unfold JsNumber.gt. by destruct (MinMax.max weightData), (MinMax.min weightData).
Qed.
End WeightBounds.

(** ** The criteria of [getRecommendedBreeds] *)

Lemma mismatch_falsy pref field : falsy pref → mismatch pref field = false.
Proof. by intros [->| ->]. Qed.

Lemma filter_true {A : Type} (f : A → bool) (l : list A) :
  (∀ x, f x = true) → List.filter f l = l.
Proof.
  intros Hf. induction l as [|x l IH]; [done|]. cbn. by rewrite Hf, IH.
Qed.

Section Criteria.
Variable dogBreeds : list DogBreedData.

(** X12: preferences in which every string criterion is absent or empty,
    there is no [compatibility] and no [weightRange], and [minLifespan] is
    absent or not above zero, return the whole catalog. *)
Theorem getRecommendedBreeds_unconstrained preferences :
  unconstrained preferences →
  getRecommendedBreeds dogBreeds preferences = dogBreeds.
Proof.
  intros (H1 & H2 & H3 & H4 & H5 & H6 & H7 & H8 & H9).
  apply filter_true. intros dog. unfold recommended. cbv zeta.
  rewrite !mismatch_falsy, H7, H8, H9 by done. done.
Qed.

Lemma recommended_single preferences dog :
  recommended preferences dog
  = forallb (λ k, recommended (single k preferences) dog)
      [BySize; ByEnergyLevel; ByTrainability; ByShedding; ByGroomingNeeds;
       ByOrigin; ByCompatibility; ByWeightRange; ByMinLifespan].
Proof.
  unfold forallb, recommended, single. cbv zeta.
  cbn [Pref.size Pref.energyLevel Pref.trainability Pref.shedding
       Pref.groomingNeeds Pref.origin Pref.compatibility Pref.weightRange
       Pref.minLifespan mismatch default from_option].
  change (JsNumber.gt JsNumber.zero JsNumber.zero) with false.
  cbn [andb].
  repeat match goal with
  | |- context [mismatch ?p ?f] => destruct (mismatch p f); [done|]
  end.
  cbn [andb].
  destruct (match Pref.compatibility preferences with
            | Some _ => _ | None => _ end); [done|].
  destruct (match Pref.weightRange preferences with
            | Some _ => _ | None => _ end); [done|].
  cbn [andb].
  by destruct (if _ && _ then _ else _).
Qed.

(** X13: the criteria of [getRecommendedBreeds] are independent and
    conjunctive: a breed is recommended for the preferences exactly when it
    is recommended for each criterion taken alone. *)
Theorem getRecommendedBreeds_conjunctive preferences dog :
  In dog (getRecommendedBreeds dogBreeds preferences)
  ↔ ∀ k, In dog (getRecommendedBreeds dogBreeds (single k preferences)).
Proof.
  unfold getRecommendedBreeds. split.
  - intros [Hin Hdog]%filter_In k. apply filter_In. split; [done|].
    rewrite recommended_single, forallb_forall in Hdog. apply Hdog.
    destruct k; simpl; tauto.
  - intros H. apply filter_In.
    split; [exact (proj1 (proj1 (filter_In _ _ _) (H BySize)))|].
    rewrite recommended_single. apply forallb_forall. intros k _.
    exact (proj2 (proj1 (filter_In _ _ _) (H k))).
Qed.
End Criteria.

(** ** Queries are compared in normal form *)

Lemma validateNonEmptyString_normalized q q' fieldName :
  normalizeBreed q = normalizeBreed q' →
  validateNonEmptyString q fieldName = validateNonEmptyString q' fieldName.
Proof.
  unfold normalizeBreed, validateNonEmptyString, strictEq. intros H.
  destruct (trim q) as [|c s] eqn:Hq, (trim q') as [|c' s'] eqn:Hq'; done.
Qed.

Section Queries.
Variable dogBreeds : list DogBreedData.

(** X14: the lookups and the searches see a query only through
    [normalizeBreed]: two queries with the same normal form (the same up to
    case and surrounding white space) give the same result, and the same
    error. *)
Theorem lookup_by_normalized_query q q' :
  normalizeBreed q = normalizeBreed q' →
  (∀ options,
     findBreed dogBreeds q options = findBreed dogBreeds q' options
     ∧ isValidDogBreed dogBreeds q options
       = isValidDogBreed dogBreeds q' options
     ∧ getDogBreedOrigin dogBreeds q options
       = getDogBreedOrigin dogBreeds q' options
     ∧ getDogBreedData dogBreeds q options
       = getDogBreedData dogBreeds q' options)
  ∧ (∀ maxDistance,
       fuzzySearchBreeds dogBreeds q maxDistance
       = fuzzySearchBreeds dogBreeds q' maxDistance
       ∧ fuzzySearchBreeds2 dogBreeds q maxDistance
         = fuzzySearchBreeds2 dogBreeds q' maxDistance).
Proof.
  intros H. split.
  - intros options.
    assert (findBreed dogBreeds q options = findBreed dogBreeds q' options)
      as Hfind by (unfold findBreed; by rewrite H).
    unfold isValidDogBreed, getDogBreedOrigin, getDogBreedData.
    by rewrite Hfind, (validateNonEmptyString_normalized q q').
  - intros maxDistance. unfold fuzzySearchBreeds, fuzzySearchBreeds2.
    by rewrite H, (validateNonEmptyString_normalized q q').
Qed.

(** X15: the same for the seven filters by one field. *)
Theorem filters_by_normalized_query q q' :
  normalizeBreed q = normalizeBreed q' →
  getDogsByCountry dogBreeds q = getDogsByCountry dogBreeds q'
  ∧ getDogsBySize dogBreeds q = getDogsBySize dogBreeds q'
  ∧ getDogsByTemperament dogBreeds q = getDogsByTemperament dogBreeds q'
  ∧ getDogsByEnergyLevel dogBreeds q = getDogsByEnergyLevel dogBreeds q'
  ∧ getDogsByTrainability dogBreeds q = getDogsByTrainability dogBreeds q'
  ∧ getDogsByShedding dogBreeds q = getDogsByShedding dogBreeds q'
  ∧ getDogsByGroomingNeeds dogBreeds q = getDogsByGroomingNeeds dogBreeds q'.
Proof.
  intros H.
  unfold getDogsByCountry, getDogsBySize, getDogsByTemperament,
    getDogsByEnergyLevel, getDogsByTrainability, getDogsByShedding,
    getDogsByGroomingNeeds.
  rewrite H.
  by repeat split; rewrite (validateNonEmptyString_normalized q q').
Qed.

(** X16: each filter by one field returns a breed of the catalog when given
    that breed's own value of the field, provided the value is not
    blank. *)
Theorem filters_find_own_value dog :
  In dog dogBreeds →
  (trim (origin dog) ≠ "" →
   ∃ result, getDogsByCountry dogBreeds (origin dog) = Ok result
             ∧ In dog result)
  ∧ (∀ v, size dog = Some v → trim v ≠ "" →
     ∃ result, getDogsBySize dogBreeds v = Ok result ∧ In dog result)
  ∧ (∀ traits v, temperament dog = Some traits → In v traits → trim v ≠ "" →
     ∃ result, getDogsByTemperament dogBreeds v = Ok result ∧ In dog result)
  ∧ (∀ v, energyLevel dog = Some v → trim v ≠ "" →
     ∃ result, getDogsByEnergyLevel dogBreeds v = Ok result ∧ In dog result)
  ∧ (∀ v, trainability dog = Some v → trim v ≠ "" →
     ∃ result, getDogsByTrainability dogBreeds v = Ok result ∧ In dog result)
  ∧ (∀ v, shedding dog = Some v → trim v ≠ "" →
     ∃ result, getDogsByShedding dogBreeds v = Ok result ∧ In dog result)
  ∧ (∀ v, groomingNeeds dog = Some v → trim v ≠ "" →
     ∃ result, getDogsByGroomingNeeds dogBreeds v = Ok result
               ∧ In dog result).
Proof.
  intros Hin.
  unfold getDogsByCountry, getDogsBySize, getDogsByTemperament,
    getDogsByEnergyLevel, getDogsByTrainability, getDogsByShedding,
    getDogsByGroomingNeeds.
  repeat split.
  - intros Hv. rewrite validateNonEmptyString_ok by done.
    eexists. split; [reflexivity|]. apply filter_In. split; [done|].
    by rewrite includes_refl.
  - intros v Hf Hv. rewrite validateNonEmptyString_ok by done.
    eexists. split; [reflexivity|]. apply filter_In. split; [done|].
    destruct dog; simpl in *. subst. unfold strictEq. by apply bool_decide_eq_true.
  - intros traits v Hf Hv Hne. rewrite validateNonEmptyString_ok by done.
    eexists. split; [reflexivity|]. apply filter_In. split; [done|].
    rewrite Hf. apply existsb_exists. exists v. split; [done|].
    unfold strictEq. by apply bool_decide_eq_true.
  - intros v Hf Hv. rewrite validateNonEmptyString_ok by done.
    eexists. split; [reflexivity|]. apply filter_In. split; [done|].
    rewrite Hf. unfold strictEq. by apply bool_decide_eq_true.
  - intros v Hf Hv. rewrite validateNonEmptyString_ok by done.
    eexists. split; [reflexivity|]. apply filter_In. split; [done|].
    rewrite Hf. unfold strictEq. by apply bool_decide_eq_true.
  - intros v Hf Hv. rewrite validateNonEmptyString_ok by done.
    eexists. split; [reflexivity|]. apply filter_In. split; [done|].
    rewrite Hf. unfold strictEq. by apply bool_decide_eq_true.
  - intros v Hf Hv. rewrite validateNonEmptyString_ok by done.
    eexists. split; [reflexivity|]. apply filter_In. split; [done|].
    rewrite Hf. unfold strictEq. by apply bool_decide_eq_true.
Qed.

End Queries.

(** ** The recommendation and the filters by one field *)

Lemma trim_nonempty v : trim v ≠ "" → v ≠ "".
Proof. by intros H ->. Qed.

Lemma mismatch_inv v field :
  mismatch (Some v) field = false → v ≠ "" → field = Some v.
Proof.
  unfold mismatch, strictEq. intros H Hv.
  rewrite (bool_decide_eq_false_2 _ Hv) in H. cbn [negb andb] in H.
  by apply negb_false_iff, bool_decide_eq_true in H.
Qed.

Section RecommendAndFilters.
Variable dogBreeds : list DogBreedData.

Lemma recommended_fields preferences dog :
  recommended preferences dog = true →
  mismatch (Pref.size preferences) (size dog) = false
  ∧ mismatch (Pref.energyLevel preferences) (energyLevel dog) = false
  ∧ mismatch (Pref.trainability preferences) (trainability dog) = false
  ∧ mismatch (Pref.shedding preferences) (shedding dog) = false
  ∧ mismatch (Pref.groomingNeeds preferences) (groomingNeeds dog) = false
  ∧ mismatch (Pref.origin preferences) (Some (origin dog)) = false.
Proof.
  unfold recommended. cbv zeta.
  repeat match goal with
  | |- context [mismatch ?p ?f] => destruct (mismatch p f); [done|]
  end.
  done.
Qed.

(** X17: a breed recommended for preferences that set a string criterion to
    a value that is not blank is among the result of the filter by that
    field for the same value ([getRecommendedBreeds] compares with [===],
    the filters compare normal forms). *)
Theorem getRecommendedBreeds_within_filters preferences dog :
  In dog (getRecommendedBreeds dogBreeds preferences) →
  (∀ v, Pref.size preferences = Some v → trim v ≠ "" →
     ∃ result, getDogsBySize dogBreeds v = Ok result ∧ In dog result)
  ∧ (∀ v, Pref.energyLevel preferences = Some v → trim v ≠ "" →
     ∃ result, getDogsByEnergyLevel dogBreeds v = Ok result ∧ In dog result)
  ∧ (∀ v, Pref.trainability preferences = Some v → trim v ≠ "" →
     ∃ result, getDogsByTrainability dogBreeds v = Ok result ∧ In dog result)
  ∧ (∀ v, Pref.shedding preferences = Some v → trim v ≠ "" →
     ∃ result, getDogsByShedding dogBreeds v = Ok result ∧ In dog result)
  ∧ (∀ v, Pref.groomingNeeds preferences = Some v → trim v ≠ "" →
     ∃ result, getDogsByGroomingNeeds dogBreeds v = Ok result
               ∧ In dog result)
  ∧ (∀ v, Pref.origin preferences = Some v → trim v ≠ "" →
     ∃ result, getDogsByCountry dogBreeds v = Ok result ∧ In dog result).
Proof.
  intros [Hin Hdog]%filter_In.
  apply recommended_fields in Hdog as (H1 & H2 & H3 & H4 & H5 & H6).
  unfold getDogsByCountry, getDogsBySize,
    getDogsByEnergyLevel, getDogsByTrainability, getDogsByShedding,
    getDogsByGroomingNeeds.
  repeat split; intros v Hp Hv; rewrite validateNonEmptyString_ok by done;
    (eexists; split; [reflexivity|]); apply filter_In; (split; [done|]);
    rewrite Hp in *.
  - apply mismatch_inv in H1; [|by apply trim_nonempty].
    destruct dog; simpl in *. subst. unfold strictEq.
    by apply bool_decide_eq_true.
  - apply mismatch_inv in H2; [|by apply trim_nonempty].
    rewrite H2. unfold strictEq. by apply bool_decide_eq_true.
  - apply mismatch_inv in H3; [|by apply trim_nonempty].
    rewrite H3. unfold strictEq. by apply bool_decide_eq_true.
  - apply mismatch_inv in H4; [|by apply trim_nonempty].
    rewrite H4. unfold strictEq. by apply bool_decide_eq_true.
  - apply mismatch_inv in H5; [|by apply trim_nonempty].
    rewrite H5. unfold strictEq. by apply bool_decide_eq_true.
  - apply mismatch_inv in H6; [|by apply trim_nonempty].
    injection H6 as ->. by rewrite includes_refl.
Qed.

Lemma mismatchBool_Some value field :
  mismatchBool (Some value) field = negb (bool_decide (field = Some value)).
Proof. done. Qed.

(** X18: for each of the three valid keys, [getDogsByCompatibility(key,
    value)] is [getRecommendedBreeds({ compatibility: { [key]: value } })];
    for every other key it throws a [TypeError]. *)
Theorem getDogsByCompatibility_as_recommendation key value :
  (key ∈ VALID_COMPATIBILITY_KEYS →
   getDogsByCompatibility dogBreeds key value
   = Ok (getRecommendedBreeds dogBreeds (compatibilityOnly key value)))
  ∧ (key ∉ VALID_COMPATIBILITY_KEYS →
     ∃ message,
       getDogsByCompatibility dogBreeds key value
       = Throw (TypeError message)).
Proof.
  unfold getDogsByCompatibility, validateCompatibilityKey. split; intros Hkey.
  - rewrite bool_decide_eq_true_2 by done. cbn [bind validateBoolean].
    unfold getRecommendedBreeds. f_equal. apply filter_ext. intros dog.
    unfold recommended, compatibilityOnly. cbv zeta.
    cbn [Pref.size Pref.energyLevel Pref.trainability Pref.shedding
         Pref.groomingNeeds Pref.origin Pref.compatibility Pref.weightRange
         Pref.minLifespan mismatch default from_option children otherDogs
         cats].
    change (JsNumber.gt JsNumber.zero JsNumber.zero) with false.
    cbn [andb]. destruct (compatibility dog) as [c|]; [|done].
    unfold compatibilityAt.
    apply list_elem_of_In in Hkey.
    destruct Hkey as [<- | [<- | [<- | []]]]; vm_compute strictEq.
    all: cbv iota; cbn [mismatchBool orb]; rewrite ?orb_false_r;
      by destruct (bool_decide _).
  - rewrite bool_decide_eq_false_2 by done. by eexists.
Qed.
End RecommendAndFilters.

(** ** Lookups and [compareBreeds] *)

Lemma array_find_find {A : Type} (f : A → bool) (l : list A) :
  array_find (λ x, Ok (f x)) l = Ok (List.find f l).
Proof.
  induction l as [|x l IH]; simpl; [done|]. by destruct (f x).
Qed.

Lemma array_find_ext {A : Type} (f g : A → Result bool) (l : list A) :
  (∀ x, In x l → f x = g x) → array_find f l = array_find g l.
Proof.
  induction l as [|x l IH]; simpl; [done|]. intros H.
  rewrite (H x) by auto. destruct (g x) as [[]|]; cbn [bind]; auto.
Qed.

Lemma containsEither_refl s : containsEither s s = true.
Proof. unfold containsEither. by rewrite includes_refl. Qed.

Lemma find_Some_In {A : Type} (f : A → bool) (l : list A) x :
  In x l → f x = true → ∃ y, List.find f l = Some y.
Proof.
  induction l as [|z l IH]; simpl; [done|]. intros [->|Hin] Hx.
  - rewrite Hx. eauto.
  - destruct (f z); eauto.
Qed.

Section LookupOrder.
Variable dogBreeds : list DogBreedData.

(** When the language is no name of [Object.prototype], the lookup cannot
    throw, and it returns the first breed whose compared name matches. *)
Lemma findBreed_find breed options :
  default "en" (lang options) ∉ objectPrototypeNames →
  findBreed dogBreeds breed options
  = Ok (List.find (nameMatch (default true (fuzzy options))
                     (default "en" (lang options)) breed) dogBreeds).
Proof.
  intros Hlang. unfold findBreed. cbv zeta.
  rewrite <- array_find_find. apply array_find_ext. intros dog _.
  unfold nameMatch, comparisonName, getProperty.
  destruct (names dog) as [dog_names|]; cbn [mbind option_bind];
    [|by destruct (default true _)].
  destruct (dog_names !! default "en" (lang options)) as [[|c alt]|];
    [by destruct (default true _)..|].
  rewrite bool_decide_eq_false_2 by done. by destruct (default true _).
Qed.

Lemma en_not_prototype : "en" ∉ objectPrototypeNames.
Proof. apply (bool_decide_unpack _). vm_compute. exact I. Qed.

(** X19: a breed of the catalog is valid under the name it is compared by,
    with or without [fuzzy], for every language tag that is no property
    name of [Object.prototype]. *)
Theorem every_breed_is_valid dog language fuzzy_option :
  In dog dogBreeds →
  default "en" language ∉ objectPrototypeNames →
  trim (comparisonName (default "en" language) dog) ≠ "" →
  isValidDogBreed dogBreeds (comparisonName (default "en" language) dog)
    {| fuzzy := fuzzy_option; lang := language |} = Ok true.
Proof.
  intros Hin Hlang Hname. unfold isValidDogBreed.
  rewrite validateNonEmptyString_ok by done. cbn [bind].
  rewrite findBreed_find by done. cbn [bind lang fuzzy].
  destruct (find_Some_In
              (nameMatch (default true fuzzy_option) (default "en" language)
                 (comparisonName (default "en" language) dog))
              dogBreeds dog Hin) as [found ->]; [|done].
  unfold nameMatch. cbv zeta.
  destruct (default true fuzzy_option).
  - apply containsEither_refl.
  - unfold strictEq. by apply bool_decide_eq_true.
Qed.

Lemma array_find_weaken {A : Type} (f g : A → Result bool) (l : list A) x :
  (∀ y b, f y = Ok b → ∃ b', g y = Ok b' ∧ (b = true → b' = true)) →
  array_find f l = Ok (Some x) →
  ∃ x', array_find g l = Ok (Some x') ∧ In x' l.
Proof.
  intros H. induction l as [|y l IH]; simpl; [done|].
  destruct (f y) as [b|] eqn:Hf; cbn [bind]; [|done].
  destruct (H y b Hf) as (b' & -> & Hb). cbn [bind].
  destruct b.
  - intros _. rewrite Hb by done. eauto.
  - intros Hfind. destruct b'; [eauto|].
    destruct (IH Hfind) as (x' & ? & ?). eauto.
Qed.

(** X20: what a lookup with [fuzzy: false] finds, the lookup with the
    default [fuzzy: true] does not miss: it returns a breed of the catalog
    for the same query and language. *)
Theorem exact_lookup_implies_fuzzy breed language found :
  getDogBreedData dogBreeds breed {| fuzzy := Some false; lang := language |}
  = Ok (Some found) →
  (∃ found',
     getDogBreedData dogBreeds breed {| fuzzy := None; lang := language |}
     = Ok (Some found')
     ∧ In found' dogBreeds)
  ∧ isValidDogBreed dogBreeds breed {| fuzzy := None; lang := language |}
    = Ok true.
Proof.
  intros [Hne Hfind]%getDogBreedData_inv.
  assert (∃ found',
            findBreed dogBreeds breed {| fuzzy := None; lang := language |}
            = Ok (Some found') ∧ In found' dogBreeds) as (found' & H & Hin).
  { revert Hfind. unfold findBreed. cbn [fuzzy lang default from_option id].
    apply array_find_weaken. intros dog b.
    destruct (match names dog with
              | Some _ => _ | None => _ end) as [s| |]; [|done|done].
    intros [= <-]. eexists. split; [reflexivity|].
    unfold strictEq. intros ->%bool_decide_eq_true.
    apply containsEither_refl. }
  unfold getDogBreedData, isValidDogBreed.
  rewrite !validateNonEmptyString_ok by done. cbn [bind]. rewrite H.
  split; [by exists found'|done].
Qed.

(** X21: in a catalog without alternate English names, the default lookup
    [getDogBreedData(breed)] returns the first result of
    [fuzzySearchBreeds(breed, 0)], and [null] when there is none. *)
Theorem fuzzy_lookup_is_first_search_hit breed result :
  (∀ dog, In dog dogBreeds → comparisonName "en" dog = name dog) →
  fuzzySearchBreeds dogBreeds breed JsNumber.zero = Ok result →
  getDogBreedData dogBreeds breed defaults = Ok (head result).
Proof.
  intros Hnames Hsearch.
  assert (trim breed ≠ "") as Hne.
  { revert Hsearch. unfold fuzzySearchBreeds.
    destruct (validateNonEmptyString breed "Search term") as [[]|] eqn:Hv;
      [|done].
    intros _. by apply validateNonEmptyString_inv in Hv. }
  rewrite fuzzySearchBreeds_eq in Hsearch by done.
  rewrite (filter_ext (fuzzyMatch breed JsNumber.zero) (λ _, false))
    in Hsearch by apply fuzzyMatch_zero.
  assert (∀ l : list DogBreedData, List.filter (λ _, false) l = []) as Hnil.
  { induction l; simpl; done. }
  rewrite Hnil, app_nil_r in Hsearch. injection Hsearch as <-.
  unfold getDogBreedData. rewrite validateNonEmptyString_ok by done.
  cbn [bind]. rewrite findBreed_find by apply en_not_prototype.
  f_equal. cbn [defaults fuzzy lang default from_option id].
  clear Hnil Hne. induction dogBreeds as [|dog l IH]; [done|].
  cbn [List.find List.filter].
  unfold nameMatch at 1. cbv zeta. rewrite Hnames by (by left).
  unfold substringMatch at 1.
  destruct (containsEither _ _); [done|].
  apply IH. intros d Hd. apply Hnames. by right.
Qed.

(** X22: a language tag that names a property of [Object.prototype]
    (['constructor'], ['toString'], ...): at the first breed that carries
    alternate names without an own entry for the tag, [names[lang]] is
    inherited and no string, and [findBreed] throws the [TypeError] of
    [normalizeBreed], unless an earlier breed was found. *)
Theorem findBreed_prototype_language breed fuzzy_option language
  before dog dog_names after :
  dogBreeds = (before ++ dog :: after)%list →
  language ∈ objectPrototypeNames →
  names dog = Some dog_names →
  dog_names !! language = None →
  Forall (λ d, names d = None
               ∧ nameMatch (default true fuzzy_option) language breed d
                 = false) before →
  findBreed dogBreeds breed {| fuzzy := fuzzy_option; lang := Some language |}
  = Throw (TypeError "Breed name must be a string").
Proof.
  intros -> Hlang Hnames Hown Hbefore. unfold findBreed.
  cbn [fuzzy lang default from_option id].
  induction Hbefore as [|d before [Hd Hm] _ IH]; cbn [app array_find].
  - rewrite Hnames. unfold getProperty. rewrite Hown.
    by rewrite bool_decide_eq_true_2.
  - rewrite Hd. unfold nameMatch, comparisonName in Hm. rewrite Hd in Hm.
    cbn [mbind option_bind] in Hm. cbv zeta in Hm.
    destruct (default true fuzzy_option); cbn [bind]; by rewrite Hm.
Qed.

(** X23: [compareBreeds] returns a comparison exactly when both queries are
    valid breeds by [isValidDogBreed] with the default options. *)
Theorem compareBreeds_succeeds_iff breed1 breed2 :
  (∃ r, compareBreeds dogBreeds breed1 breed2 = Ok r)
  ↔ isValidDogBreed dogBreeds breed1 defaults = Ok true
    ∧ isValidDogBreed dogBreeds breed2 defaults = Ok true.
Proof.
  unfold compareBreeds, isValidDogBreed, getDogBreedData.
  change (findBreed dogBreeds ?b {| fuzzy := Some true; lang := None |})
    with (findBreed dogBreeds b defaults).
  unfold validateNonEmptyString.
  destruct (strictEq (trim breed1) ""); cbn [bind].
  { split; [by intros [r ?]|by intros [? _]]. }
  destruct (strictEq (trim breed2) ""); cbn [bind].
  { split; [by intros [r ?]|by intros [_ ?]]. }
  destruct (findBreed dogBreeds breed1 defaults) as [[dog1|]|]; cbn [bind].
  - destruct (findBreed dogBreeds breed2 defaults) as [[dog2|]|]; cbn [bind].
    + split; [done|eauto].
    + split; [by intros [r ?]|by intros [_ ?]].
    + split; [by intros [r ?]|by intros [_ ?]].
  - destruct (findBreed dogBreeds breed2 defaults) as [[dog2|]|]; cbn [bind];
      (split; [by intros [r ?]|by intros [? _]]).
  - split; [by intros [r ?]|by intros [? _]].
Qed.

Lemma compareField_mirror {A : Type} `{EqDecision A} (x y : A) :
  compareField y x = mirrorField (compareField x y).
Proof.
  unfold compareField, mirrorField. cbn. f_equal.
  apply bool_decide_ext. split; done.
Qed.

Lemma compareCompatibility_mirror key c1 c2 :
  compareCompatibility key c2 c1
  = mirrorField (compareCompatibility key c1 c2).
Proof.
  unfold compareCompatibility, mirrorField. cbn. f_equal.
  apply bool_decide_ext. split; done.
Qed.

(** X24: exchanging the two queries of [compareBreeds] exchanges the two
    sides of every field of the result and keeps every [match] flag. *)
Theorem compareBreeds_mirror breed1 breed2 r :
  compareBreeds dogBreeds breed1 breed2 = Ok r →
  compareBreeds dogBreeds breed2 breed1 = Ok (mirror r).
Proof.
  unfold compareBreeds, getDogBreedData, validateNonEmptyString.
  destruct (strictEq (trim breed1) ""); cbn [bind]; [done|].
  destruct (strictEq (trim breed2) ""); cbn [bind]; [done|].
  destruct (findBreed dogBreeds breed1 _) as [[dog1|]|]; cbn [bind];
    [| |done].
  - destruct (findBreed dogBreeds breed2 _) as [[dog2|]|]; cbn [bind];
      [|done|done].
    intros [= <-]. unfold mirror. cbn.
    by rewrite <- !compareField_mirror, <- !compareCompatibility_mirror.
  - by destruct (findBreed dogBreeds breed2 _) as [[dog2|]|].
Qed.

(** X25: when the two queries resolve to the same breed, every [match]
    flag of the comparison is [true]. *)
Theorem compareBreeds_same_breed breed1 breed2 r :
  compareBreeds dogBreeds breed1 breed2 = Ok r →
  Cmp.breed1 r = Cmp.breed2 r →
  Forall (λ flag, flag = true) (matchFlags (Cmp.comparison r)).
Proof.
  unfold compareBreeds, getDogBreedData, validateNonEmptyString.
  destruct (strictEq (trim breed1) ""); cbn [bind]; [done|].
  destruct (strictEq (trim breed2) ""); cbn [bind]; [done|].
  destruct (findBreed dogBreeds breed1 _) as [[dog1|]|]; cbn [bind];
    [| |done].
  - destruct (findBreed dogBreeds breed2 _) as [[dog2|]|]; cbn [bind];
      [|done|done].
    intros [= <-]. cbn. intros <-.
    repeat constructor; by apply bool_decide_eq_true.
  - by destruct (findBreed dogBreeds breed2 _) as [[dog2|]|].
Qed.

End LookupOrder.

(** ** [parseLifespanAverage], [validateUnit] and the weight range *)

Lemma keepDigitsAndDashes_all s : allDigitsOrDashes (keepDigitsAndDashes s) = true.
Proof.
  induction s as [|c s IH]; simpl; [done|].
  destruct (isDigit c || bool_decide (c = hyphen)) eqn:Hc; simpl; [|done].
  by rewrite Hc.
Qed.

Lemma keepDigitsAndDashes_id s :
  allDigitsOrDashes s = true → keepDigitsAndDashes s = s.
Proof.
  induction s as [|c s IH]; simpl; [done|].
  intros [Hc Hs]%andb_true_iff. rewrite Hc. by rewrite IH.
Qed.

Lemma isDigit_not_space c : isDigit c = true → isWhiteSpace c = false.
Proof. destruct c as [[] [] [] [] [] [] [] []]; vm_compute; done. Qed.

Lemma hyphen_not_space : isWhiteSpace hyphen = false.
Proof. done. Qed.

Lemma isDigit_not_sign c :
  isDigit c = true → c ≠ hyphen ∧ c ≠ ascii_of_nat 43.
Proof. destruct c as [[] [] [] [] [] [] [] []]; vm_compute; done. Qed.

Lemma trimStart_no_space s :
  allDigitsOrDashes s = true → trimStart s = s.
Proof.
  destruct s as [|c s]; simpl; [done|].
  intros [[Hc|Hc]%orb_true_iff _]%andb_true_iff.
  - by rewrite isDigit_not_space.
  - apply bool_decide_eq_true in Hc as ->. done.
Qed.

Lemma trimEnd_no_space s :
  allDigitsOrDashes s = true → trimEnd s = s.
Proof.
  induction s as [|c s IH]; simpl; [done|].
  intros [Hc Hs]%andb_true_iff. rewrite IH by done.
  destruct s; [|done].
  apply orb_true_iff in Hc as [Hc|Hc].
  - by rewrite isDigit_not_space.
  - apply bool_decide_eq_true in Hc as ->. done.
Qed.

Lemma trim_no_space s : allDigitsOrDashes s = true → trim s = s.
Proof.
  intros H. unfold trim. rewrite trimStart_no_space by done.
  by apply trimEnd_no_space.
Qed.

Lemma allDigits_allDigitsOrDashes s :
  allDigits s = true → allDigitsOrDashes s = true.
Proof.
  induction s as [|c s IH]; simpl; [done|].
  intros [-> Hs]%andb_true_iff. by rewrite IH.
Qed.

Lemma split_cons sep s : ∃ part parts, split sep s = part :: parts.
Proof.
  induction s as [|c s (part & parts & IH)]; simpl; [eauto|].
  destruct (decide (c = sep)); [eauto|]. rewrite IH. eauto.
Qed.

Lemma split_allDigits s :
  allDigitsOrDashes s = true →
  Forall (λ part, allDigits part = true) (split hyphen s).
Proof.
  induction s as [|c s IH]; simpl; [by constructor|].
  intros [Hc Hs]%andb_true_iff. specialize (IH Hs).
  destruct (decide (c = hyphen)) as [->|Hne].
  - by constructor.
  - destruct (split_cons hyphen s) as (part & parts & Hsplit).
    rewrite Hsplit in *.
    inversion IH as [|?? Hpart Hparts]; subst.
    apply orb_true_iff in Hc as [Hc|Hc].
    + constructor; [|done]. simpl. by rewrite Hc.
    + by apply bool_decide_eq_true in Hc.
Qed.

Lemma digitsValue_nonneg acc s n :
  (∀ m, acc = Some m → (0 ≤ m)%Z) →
  digitsValue acc s = Some n → (0 ≤ n)%Z.
Proof.
  revert acc. induction s as [|c s IH]; simpl; intros acc Hacc; [auto|].
  destruct (isDigit c); [|auto].
  apply IH. intros m [= <-].
  destruct acc as [m'|]; simpl; [|lia]. specialize (Hacc m' eq_refl). lia.
Qed.

Lemma nearest_even_nonneg n d :
  (0 ≤ n)%Z → (0 < d)%Z → (0 ≤ JsNumber.nearest_even n d)%Z.
Proof.
  intros Hn Hd. unfold JsNumber.nearest_even. cbv zeta.
  pose proof (Z.div_pos n d Hn Hd).
  destruct (2 * (n mod d) ?= d)%Z; [destruct (Z.even _)|..]; lia.
Qed.

Lemma scaled_nonneg e a d n d' :
  (0 ≤ a)%Z → (0 < d)%Z → JsNumber.scaled e a d = (n, d') →
  (0 ≤ n)%Z ∧ (0 < d')%Z.
Proof.
  intros Ha Hd. unfold JsNumber.scaled.
  destruct (0 <=? e)%Z eqn:He; intros [= <- <-].
  - apply Z.leb_le in He.
    pose proof (Z.pow_pos_nonneg 2 e). lia.
  - apply Z.leb_gt in He.
    pose proof (Z.pow_pos_nonneg 2 (- e)). nia.
Qed.

(** A number that is not negative rounds to a number that is not negative,
    or to [Infinity]. *)
Lemma round_nonneg x :
  (0 <= x)%Q →
  JsNumber.round x = PosInf ∨ ∃ q, JsNumber.round x = Fin q ∧ (0 <= q)%Q.
Proof.
  intros Hx. unfold JsNumber.round. cbv zeta.
  destruct (Z.abs (Qnum x) =? 0)%Z eqn:Hzero.
  { right. exists 0%Q. split; [done|]. apply Qle_refl. }
  apply Z.eqb_neq in Hzero.
  assert (0 < Qnum x)%Z as Hnum.
  { unfold Qle in Hx. simpl in Hx. lia. }
  rewrite Z.sgn_pos by done.
  set (e := Z.max _ (-1074)). clearbody e.
  destruct (JsNumber.scaled e (Z.abs (Qnum x)) (Z.pos (Qden x)))
    as [n d'] eqn:Hscaled.
  apply scaled_nonneg in Hscaled as [Hn Hd']; [|lia..].
  pose proof (nearest_even_nonneg n d' Hn Hd') as Hm.
  rewrite Z.mul_1_l.
  destruct (0 <=? e)%Z eqn:He.
  - apply Z.leb_le in He.
    destruct (2 ^ 1024 <=? _)%Z.
    + left. by rewrite (proj2 (Z.ltb_ge _ _) Hm).
    + right. eexists. split; [reflexivity|].
      unfold Qle, inject_Z. simpl.
      pose proof (Z.pow_pos_nonneg 2 e). nia.
  - right. eexists. split; [reflexivity|].
    rewrite Qred_correct. unfold Qle. simpl. lia.
Qed.

Lemma parseInt10_digits p n :
  allDigits p = true → parseInt10 p = n →
  isFinite n = true → ∃ q, n = Fin q ∧ (0 <= q)%Q.
Proof.
  intros Hp <-. unfold parseInt10.
  rewrite trimStart_no_space by by apply allDigits_allDigitsOrDashes.
  destruct p as [|c p]; [done|]. simpl in Hp.
  apply andb_true_iff in Hp as [Hc Hp].
  destruct (isDigit_not_sign c Hc) as [H1 H2].
  rewrite !bool_decide_eq_false_2 by done.
  destruct (digitsValue None (String c p)) as [n|] eqn:Hn; [|done].
  apply digitsValue_nonneg in Hn; [|done].
  unfold toNumber.
  destruct (round_nonneg (inject_Z (1 * n))) as [-> | (q & -> & Hq)].
  - unfold Qle, inject_Z. simpl. lia.
  - done.
  - intros _. by exists q.
Qed.

Lemma parts_allDigits s :
  Forall (λ part, allDigits part = true)
    (List.filter (λ s, negb (strictEq s ""))
       (trim <$> split hyphen (trim (normalizeDashes (keepDigitsAndDashes s))))).
Proof.
  unfold normalizeDashes.
  rewrite trim_no_space by apply keepDigitsAndDashes_all.
  apply Forall_forall. intros part Hpart.
  apply list_elem_of_In, filter_In in Hpart as [Hpart _].
  apply list_elem_of_In, list_elem_of_fmap in Hpart as (raw & -> & Hraw).
  pose proof (split_allDigits _ (keepDigitsAndDashes_all s)) as Hall.
  rewrite Forall_forall in Hall. specialize (Hall raw Hraw).
  by rewrite trim_no_space by by apply allDigits_allDigitsOrDashes.
Qed.

Lemma not_negative n :
  (n = PosInf ∨ ∃ q, n = Fin q ∧ (0 <= q)%Q) →
  n ≠ NaN ∧ JsNumber.lt n JsNumber.zero = false.
Proof.
  intros [-> | (q & -> & Hq)]; [done|]. split; [done|].
  simpl. unfold JsNumber.Qlt_bool. by apply negb_false_iff, Qle_bool_iff.
Qed.

(** X26: what [parseLifespanAverage] returns is never [NaN] and never below
    zero: a hyphen separates two bounds, it is no sign. *)
Theorem parseLifespanAverage_never_negative lifespan n :
  parseLifespanAverage lifespan = Some n →
  n ≠ NaN ∧ JsNumber.lt n JsNumber.zero = false.
Proof.
  unfold parseLifespanAverage. destruct lifespan as [s|]; [|done].
  destruct (strictEq s ""); [done|]. cbv zeta.
  destruct (Nat.eqb _ 0); [done|].
  pose proof (parts_allDigits s) as Hparts.
  destruct (List.filter _ _) as [|p0 [|p1 rest]]; [done| |].
  - inversion Hparts as [|?? Hp0 _]; subst.
    destruct (isFinite (parseInt10 p0)) eqn:Hfin; [|done].
    intros [= <-]. apply not_negative. right.
    by apply (parseInt10_digits p0).
  - inversion Hparts as [|?? Hp0 Hrest]; subst.
    inversion Hrest as [|?? Hp1 _]; subst.
    destruct (isFinite (parseInt10 p0)) eqn:Hfin0; [|done].
    destruct (isFinite (parseInt10 p1)) eqn:Hfin1; [|done].
    cbn [andb]. intros [= <-]. apply not_negative.
    destruct (parseInt10_digits p0 _ Hp0 eq_refl Hfin0) as (q0 & -> & Hq0).
    destruct (parseInt10_digits p1 _ Hp1 eq_refl Hfin1) as (q1 & -> & Hq1).
    unfold mean, JsNumber.add.
    destruct (round_nonneg (q0 + q1)) as [-> | (q & -> & Hq)]; [lra| |].
    + by left.
    + unfold JsNumber.halve. apply round_nonneg.
      apply Qle_shift_div_l; [reflexivity|]. lra.
Qed.

(** X27: on a [string] (code units up to U+00FF) [parseLifespanAverage]
    depends only on the digits and hyphens: the string parses as the string
    of its digits and hyphens does. *)
Theorem parseLifespanAverage_digits_and_dashes s :
  parseLifespanAverage (Some s)
  = parseLifespanAverage (Some (keepDigitsAndDashes s)).
Proof.
  unfold parseLifespanAverage.
  rewrite (keepDigitsAndDashes_id (keepDigitsAndDashes s))
    by apply keepDigitsAndDashes_all.
  unfold strictEq. destruct (keepDigitsAndDashes s) as [|c k] eqn:Hk.
  - destruct (bool_decide (s = "")); done.
  - rewrite bool_decide_eq_false_2 by (intros ->; done).
    by rewrite bool_decide_eq_false_2.
Qed.

(** ** [validateUnit] *)

(** X28: what [validateUnit] returns is ['kgs'] or ['lbs'], validates to
    itself, and is also what the unit validates to after trimming and
    lower-casing in the other order. *)
Theorem validateUnit_normal_form unit normalizedUnit :
  validateUnit unit = Ok normalizedUnit →
  (normalizedUnit = "kgs" ∨ normalizedUnit = "lbs")
  ∧ validateUnit (Some normalizedUnit) = Ok normalizedUnit
  ∧ validateUnit (Some (normalizeBreed (default "lbs" unit)))
    = Ok normalizedUnit.
Proof.
  unfold validateUnit. cbv zeta. cbn [default from_option id].
  unfold normalizeBreed.
  rewrite toLowerCase_trim, <- toLowerCase_trim, toLowerCase_idemp.
  rewrite toLowerCase_trim, trim_idemp.
  destruct (bool_decide (_ ∈ UNIT_ALIASES_kgs)).
  - intros [= <-]. split; [by left|]. done.
  - destruct (bool_decide (_ ∈ UNIT_ALIASES_lbs)); [|done].
    intros [= <-]. split; [by right|]. done.
Qed.

(** X2: [validateNonEmptyString] throws, with the field name in the
    [NonEmptyStringError], exactly on the strings made of white space only
    (the empty string among them), and accepts every other string. *)
Theorem validateNonEmptyString_white_space value fieldName :
  validateNonEmptyString value fieldName
  = if allWhiteSpace value then Throw (NonEmptyStringError fieldName)
    else Ok tt.
Proof.
  unfold validateNonEmptyString, strictEq.
  destruct (allWhiteSpace value) eqn:H.
  - apply trim_empty in H. by rewrite H.
  - rewrite bool_decide_eq_false_2; [done|].
    intros Ht%trim_empty. congruence.
Qed.

Lemma lt_min_le x lo hi :
  JsNumber.le lo hi = true →
  JsNumber.lt x (JsNumber.min lo hi) = JsNumber.lt x lo.
Proof. destruct x, lo, hi; q_goal. Qed.

Lemma gt_max_le x lo hi :
  JsNumber.le lo hi = true →
  JsNumber.gt x (JsNumber.max lo hi) = JsNumber.gt x hi.
Proof. unfold JsNumber.gt. destruct x, lo, hi; q_goal. Qed.

Section WeightAsRecommendation.
Variable dogBreeds : list DogBreedData.

(** X29: with the bounds in order and the unit ['kgs'], ['lbs'] or left
    out, [getDogsByWeightRange(min, max, unit)] is
    [getRecommendedBreeds({ weightRange: { min, max, unit } })]. *)
Theorem getDogsByWeightRange_as_recommendation lo hi unit :
  JsNumber.le lo hi = true →
  unit = Some "kgs" ∨ unit = Some "lbs" ∨ unit = None →
  getDogsByWeightRange dogBreeds lo hi unit
  = Ok (getRecommendedBreeds dogBreeds (weightRangeOnly lo hi unit)).
Proof.
  intros Hle Hunit.
  assert (validateUnit unit
          = Ok (if bool_decide (unit = Some "kgs") then "kgs" else "lbs"))
    as Hv by (by destruct Hunit as [-> | [-> | ->]]).
  rewrite (getDogsByWeightRange_eq _ _ _ _ _ Hv).
  unfold getRecommendedBreeds. f_equal. apply filter_ext. intros dog.
  unfold recommended, weightRangeOnly, weightIn. cbv zeta.
  cbn [Pref.size Pref.energyLevel Pref.trainability Pref.shedding
       Pref.groomingNeeds Pref.origin Pref.compatibility Pref.weightRange
       Pref.minLifespan Pref.min Pref.max Pref.unit mismatch default
       from_option].
  change (JsNumber.gt JsNumber.zero JsNumber.zero) with false.
  cbn [andb]. rewrite unit_selection.
  destruct (weight dog) as [dog_weight|]; [|done].
  assert (strictEq (if bool_decide (unit = Some "kgs") then "kgs" else "lbs")
            "kgs" = bool_decide (unit = Some "kgs")) as ->
    by (by destruct (bool_decide (unit = Some "kgs"))).
  destruct (if bool_decide (unit = Some "kgs") then kgs dog_weight
            else lbs dog_weight) as [weightData|]; [|done].
  rewrite lt_min_le, gt_max_le by done.
  by destruct (negb _).
Qed.
End WeightAsRecommendation.

(** ** References returned by the search *)

Section Aliasing.
Variables (h : list Heap.Obj) (dogBreeds : list nat) (objs : list Heap.Obj).
Variables (searchTerm : string) (maxDistance : JsNum).
Hypothesis Hcatalog : reads h dogBreeds objs.
Hypothesis Hterm : trim searchTerm ≠ "".
Hypothesis Hmax : JsNumber.lt maxDistance JsNumber.zero = false.

(** X30: on the store, [fuzzySearchBreeds] returns the substring matches by
    reference (they are references of the catalog) and the fuzzy matches as
    new objects, distinct from every object of the catalog; it allocates two
    objects for each fuzzy match and none for a substring match. *)
Theorem search_shares_substring_matches :
  ∃ shared fresh h',
    Heap.fuzzySearchBreeds dogBreeds searchTerm maxDistance h
    = Some (Ok (shared ++ fresh)%list, h')
    ∧ (∀ l, In l shared → In l dogBreeds)
    ∧ reads h shared
        (List.filter (substringMatch searchTerm ∘ Heap.fields) objs)
    ∧ (∀ l, In l fresh → h !! l = None ∧ ¬ In l dogBreeds)
    ∧ NoDup fresh
    ∧ length fresh
      = length (List.filter (fuzzyMatch searchTerm maxDistance ∘ Heap.fields)
                  objs)
    ∧ length h' = length h + 2 * length fresh.
Proof.
  destruct (fuzzySearchBreeds_run h dogBreeds objs searchTerm maxDistance
              Hcatalog Hterm Hmax) as (shared & Hrun & Hreads & Hshared).
  eexists shared, _, _. split; [exact Hrun|].
  assert (length (stripped_copies searchTerm maxDistance objs)
          = length (scored_copies searchTerm maxDistance objs)) as Hlen.
  { unfold stripped_copies. rewrite length_fmap.
    apply Permutation_length, array_sort_perm. }
  split; [done|]. split; [done|]. split; [|split; [|split]].
  - intros l [Hl _]%in_seq.
    assert (h !! l = None) as Hnone by (apply lookup_ge_None; lia).
    split; [done|]. intros Hin.
    destruct (Forall2_In_l _ _ _ _ Hcatalog Hin) as (o & _ & Ho). congruence.
  - apply NoDup_seq.
  - rewrite length_seq, Hlen. unfold scored_copies. by rewrite length_fmap.
  - rewrite !length_app, length_seq, Hlen. lia.
Qed.
End Aliasing.

(** ** The further properties on the small catalog *)

Section MoreOnSample.
Import Sample.

Lemma levenshteinDistance_least_edits_witness :
  levenshteinDistance "dachshunt" "dachshund" ≤ 1.
Proof.
  apply (proj2 (levenshteinDistance_least_edits "dachshunt" "dachshund") 1).
  eapply edits_S; [|apply edits_O].
  exact (edit_substitute (list_ascii_of_string "dachshun") [] "t" "d").
Defined.

Lemma fuzzySearchBreeds_each_match_once_witness :
  ∃ result,
    fuzzySearchBreeds dogBreeds "daschund" (number 3) = Ok result
    ∧ result ≡ₚ List.filter
                  (λ dog, substringMatch "daschund" dog
                          || withinDistance "daschund" (number 3) dog)
                  dogBreeds.
Proof.
  destruct (fuzzySearchBreeds_each_match_once dogBreeds "daschund" (number 3))
    as (result & Hresult & Hperm & _).
  - vm_compute. discriminate.
  - reflexivity.
  - exists result. split; [exact Hresult | exact Hperm].
Defined.

Lemma fuzzySearchBreeds2_agrees_witness :
  fuzzySearchBreeds2 dogBreeds "daschund" (number 3)
  = fuzzySearchBreeds dogBreeds "daschund" (number 3).
Proof.
  apply (fuzzySearchBreeds2_agrees dogBreeds "daschund" (number 3)).
  reflexivity.
Defined.

Lemma fuzzySearchBreeds_monotone_witness :
  ∃ result',
    fuzzySearchBreeds dogBreeds "dachshunt" (number 3) = Ok result'
    ∧ In dachshund result'.
Proof.
  eexists. split; [vm_compute; reflexivity|].
  apply (fuzzySearchBreeds_monotone dogBreeds "dachshunt"
           (number 1) (number 3) [dachshund]).
  - reflexivity.
  - vm_compute. reflexivity.
  - vm_compute. reflexivity.
  - left. reflexivity.
Defined.

Lemma fuzzySearchBreeds_not_finite_witness :
  fuzzySearchBreeds dogBreeds "Retriever" NaN
  = Ok (List.filter (substringMatch "Retriever") dogBreeds)
  ∧ fuzzySearchBreeds2 dogBreeds "Retriever" NaN = Ok []
  ∧ ∃ result,
      fuzzySearchBreeds dogBreeds "Retriever" PosInf = Ok result
      ∧ result ≡ₚ dogBreeds.
Proof.
  apply (fuzzySearchBreeds_not_finite dogBreeds "Retriever").
  vm_compute. discriminate.
Defined.

Lemma getDogsByWeightRange_widen_witness :
  ∃ result',
    getDogsByWeightRange dogBreeds (number 10) (number 40) None = Ok result'
    ∧ In dachshund result'.
Proof.
  eexists. split; [vm_compute; reflexivity|].
  apply (getDogsByWeightRange_widen dogBreeds (number 20) (number 25)
           (number 10) (number 40) None [dachshund]).
  - reflexivity.
  - reflexivity.
  - reflexivity.
  - vm_compute. reflexivity.
  - vm_compute. reflexivity.
  - left. reflexivity.
Defined.

Lemma getDogsByWeightRange_NaN_witness :
  getDogsByWeightRange dogBreeds NaN (number 10) (Some "kg")
  = Ok (List.filter (λ dog, bool_decide (weightIn "kgs" dog ≠ None))
          dogBreeds)
  ∧ getDogsByWeightRange dogBreeds (number 10) NaN (Some "kg")
    = getDogsByWeightRange dogBreeds NaN (number 10) (Some "kg").
Proof.
  apply (getDogsByWeightRange_NaN dogBreeds (number 10) (Some "kg") "kgs").
  vm_compute. reflexivity.
Defined.

Lemma getRecommendedBreeds_unconstrained_witness :
  getRecommendedBreeds dogBreeds Pref.empty = dogBreeds.
Proof.
  apply (getRecommendedBreeds_unconstrained dogBreeds Pref.empty).
  repeat split; try (left; reflexivity); reflexivity.
Defined.

Lemma getRecommendedBreeds_conjunctive_witness :
  In dachshund
    (getRecommendedBreeds dogBreeds (compatibilityOnly "cats" false)).
Proof.
  apply (proj2 (getRecommendedBreeds_conjunctive dogBreeds
                  (compatibilityOnly "cats" false) dachshund)).
  intros k. destruct k; vm_compute; auto.
Defined.

Lemma lookup_by_normalized_query_witness :
  fuzzySearchBreeds dogBreeds "  GOLDEN retriever " (number 2)
  = fuzzySearchBreeds dogBreeds "Golden Retriever" (number 2).
Proof.
  refine (proj1 (proj2 (lookup_by_normalized_query dogBreeds
                          "  GOLDEN retriever " "Golden Retriever" _)
                   (number 2))).
  vm_compute. reflexivity.
Defined.

Lemma filters_by_normalized_query_witness :
  getDogsBySize dogBreeds " LARGE " = getDogsBySize dogBreeds "large".
Proof.
  refine (proj1 (proj2 (filters_by_normalized_query dogBreeds
                          " LARGE " "large" _))).
  vm_compute. reflexivity.
Defined.

Lemma filters_find_own_value_witness :
  ∃ result,
    getDogsByTemperament dogBreeds "devoted" = Ok result
    ∧ In dachshund result.
Proof.
  refine (proj1 (proj2 (proj2 (filters_find_own_value dogBreeds dachshund _)))
            ["clever"; "stubborn"; "devoted"] "devoted" _ _ _).
  - vm_compute. auto.
  - reflexivity.
  - vm_compute. auto.
  - vm_compute. discriminate.
Defined.

Lemma getRecommendedBreeds_within_filters_witness :
  ∃ result,
    getDogsByCountry dogBreeds "Germany" = Ok result ∧ In dachshund result.
Proof.
  refine (proj2 (proj2 (proj2 (proj2 (proj2
            (getRecommendedBreeds_within_filters dogBreeds
               (single ByOrigin
                  {| Pref.size := None; Pref.energyLevel := None;
                     Pref.trainability := None; Pref.shedding := None;
                     Pref.groomingNeeds := None;
                     Pref.origin := Some "Germany";
                     Pref.compatibility := None; Pref.weightRange := None;
                     Pref.minLifespan := None |})
               dachshund _))))) "Germany" _ _).
  - vm_compute. auto.
  - reflexivity.
  - vm_compute. discriminate.
Defined.

Lemma getDogsByCompatibility_as_recommendation_witness :
  getDogsByCompatibility dogBreeds "cats" false
  = Ok (getRecommendedBreeds dogBreeds (compatibilityOnly "cats" false)).
Proof.
  apply (proj1 (getDogsByCompatibility_as_recommendation dogBreeds
                  "cats" false)).
  apply (bool_decide_unpack _). vm_compute. exact I.
Defined.

Lemma every_breed_is_valid_witness :
  isValidDogBreed dogBreeds (comparisonName (default "en" (Some "de"))
                               dachshund) (exact (Some "de"))
  = Ok true.
Proof.
  apply (every_breed_is_valid dogBreeds dachshund (Some "de") (Some false)).
  - vm_compute. auto.
  - apply (bool_decide_unpack _). vm_compute. exact I.
  - vm_compute. discriminate.
Defined.

Lemma exact_lookup_implies_fuzzy_witness :
  isValidDogBreed dogBreeds "Dackel" {| fuzzy := None; lang := Some "de" |}
  = Ok true.
Proof.
  refine (proj2 (exact_lookup_implies_fuzzy dogBreeds "Dackel" (Some "de")
                   dachshund _)).
  vm_compute. reflexivity.
Defined.

Lemma fuzzy_lookup_is_first_search_hit_witness :
  getDogBreedData dogBreeds "retriever" defaults
  = Ok (head [golden; labrador]).
Proof.
  apply (fuzzy_lookup_is_first_search_hit dogBreeds "retriever"
           [golden; labrador]).
  - intros dog [<- | [<- | [<- | [<- | [<- | []]]]]]; vm_compute; reflexivity.
  - vm_compute. reflexivity.
Defined.

Lemma findBreed_prototype_language_witness :
  findBreed dogBreeds "poodle"
    {| fuzzy := None; lang := Some "constructor" |}
  = Throw (TypeError "Breed name must be a string").
Proof.
  apply (findBreed_prototype_language dogBreeds "poodle" None "constructor"
           [golden; labrador] dachshund {[ "de" := "Dackel" ]}
           [affenpinscher; village_dog]).
  - reflexivity.
  - apply (bool_decide_unpack _). vm_compute. exact I.
  - reflexivity.
  - vm_compute. reflexivity.
  - repeat constructor.
Defined.

Lemma compareBreeds_succeeds_iff_witness :
  ∃ r, compareBreeds dogBreeds "golden" "dachshund" = Ok r.
Proof.
  apply (proj2 (compareBreeds_succeeds_iff dogBreeds "golden" "dachshund")).
  split; vm_compute; reflexivity.
Defined.

Lemma compareBreeds_mirror_witness :
  ∃ r,
    compareBreeds dogBreeds "golden" "dachshund" = Ok r
    ∧ compareBreeds dogBreeds "dachshund" "golden" = Ok (mirror r).
Proof.
  eexists. split; [vm_compute; reflexivity|].
  apply (compareBreeds_mirror dogBreeds "golden" "dachshund").
  vm_compute. reflexivity.
Defined.

Lemma compareBreeds_same_breed_witness :
  ∃ r,
    compareBreeds dogBreeds "golden" " Golden Retriever" = Ok r
    ∧ Forall (λ flag, flag = true) (matchFlags (Cmp.comparison r)).
Proof.
  eexists. split; [vm_compute; reflexivity|].
  apply (compareBreeds_same_breed dogBreeds "golden" " Golden Retriever").
  - vm_compute. reflexivity.
  - reflexivity.
Defined.

Lemma parseLifespanAverage_never_negative_witness :
  Fin 11 ≠ NaN ∧ JsNumber.lt (Fin 11) JsNumber.zero = false.
Proof.
  apply (parseLifespanAverage_never_negative (Some "10-12 years")).
  vm_compute. reflexivity.
Defined.

Lemma validateUnit_normal_form_witness :
  ("kgs" = "kgs" ∨ "kgs" = "lbs")
  ∧ validateUnit (Some "kgs") = Ok "kgs"
  ∧ validateUnit (Some (normalizeBreed (default "lbs" (Some " KG "))))
    = Ok "kgs".
Proof.
  apply (validateUnit_normal_form (Some " KG ") "kgs").
  vm_compute. reflexivity.
Defined.

Lemma getDogsByWeightRange_as_recommendation_witness :
  getDogsByWeightRange dogBreeds (number 10) (number 40) None
  = Ok (getRecommendedBreeds dogBreeds
          (weightRangeOnly (number 10) (number 40) None)).
Proof.
  apply (getDogsByWeightRange_as_recommendation dogBreeds
           (number 10) (number 40) None).
  - reflexivity.
  - right. right. reflexivity.
Defined.

Lemma search_shares_substring_matches_witness :
  ∃ shared fresh h',
    Heap.fuzzySearchBreeds [0; 1; 2; 3; 4] "daschund" (number 3)
      (plain <$> dogBreeds)
    = Some (Ok (shared ++ fresh)%list, h')
    ∧ (∀ l, In l shared → In l [0; 1; 2; 3; 4])
    ∧ (∀ l, In l fresh →
         (plain <$> dogBreeds) !! l = None ∧ ¬ In l [0; 1; 2; 3; 4])
    ∧ length h' = length (plain <$> dogBreeds) + 2 * length fresh.
Proof.
  destruct (search_shares_substring_matches
              (plain <$> dogBreeds) [0; 1; 2; 3; 4] (plain <$> dogBreeds)
              "daschund" (number 3))
    as (shared & fresh & h' & Hrun & Hshared & _ & Hfresh & _ & _ & Hlen).
  - repeat constructor.
  - vm_compute. discriminate.
  - reflexivity.
  - exists shared, fresh, h'.
    split; [exact Hrun|]. split; [exact Hshared|]. split; [exact Hfresh|].
    exact Hlen.
Defined.

End MoreOnSample.
